(** * The OpenRouter request scheduler of [src/services/openRouterService.ts]

    A shallow embedding of the module-level scheduler: the pending-request
    queue, the busy flag [isProcessing], the rate window [requestQueue], the
    response cache and the async function [processNextRequest], whose
    suspension points ([await sleep], [await axios.post]) are modelled as
    suspended frames resumed by an event loop. *)

From Stdlib Require Import ZArith List String Ascii Bool Lia Permutation.
Import ListNotations.
#[local] Set Warnings "-register-all".
Open Scope Z_scope.

(** ** Constants (lines 7-12, 16) *)

Definition MAX_RETRIES : nat := 5.
Definition BASE_DELAY_MS : Z := 10000.
Definition RATE_LIMIT_REQUESTS : nat := 2.
(** [Math.ceil((60 * 1000) / RATE_LIMIT_REQUESTS)] *)
Definition MIN_DELAY_MS : Z :=
  let q := 60 * 1000 in
  let d := Z.of_nat RATE_LIMIT_REQUESTS in
  q / d + (if q mod d =? 0 then 0 else 1).
Definition WINDOW_MS : Z := 60 * 1000.
Definition MAX_CONCURRENT_REQUESTS : nat := 2.
Definition MAX_QUEUE_SIZE : nat := RATE_LIMIT_REQUESTS.

(** ** JavaScript values, as far as the response checks look at them *)

Inductive jsv : Type :=
| JUndef
| JNull
| JBool (b : bool)
| JNum (z : Z)
| JStr (s : string)
| JArr (l : list jsv)
| JObj (fields : list (string * jsv)).

(** JavaScript truthiness ([!x] is [negb (truthy x)]). *)
Definition truthy (v : jsv) : bool :=
  match v with
  | JUndef | JNull => false
  | JBool b => b
  | JNum z => negb (z =? 0)
  | JStr s => negb (String.eqb s EmptyString)
  | JArr _ | JObj _ => true
  end.

(** [typeof v === 'object'] *)
Definition typeof_object (v : jsv) : bool :=
  match v with
  | JNull | JArr _ | JObj _ => true
  | _ => false
  end.

Definition typeof_string (v : jsv) : bool :=
  match v with JStr _ => true | _ => false end.

Fixpoint assoc_get (k : string) (fs : list (string * jsv)) : jsv :=
  match fs with
  | [] => JUndef
  | (k', v) :: rest => if String.eqb k k' then v else assoc_get k rest
  end.

(** Property access [v.k] on a value that is neither [null] nor
    [undefined]; arrays and strings expose [length]. *)
Definition getprop (v : jsv) (k : string) : jsv :=
  match v with
  | JObj fs => assoc_get k fs
  | JArr l => if String.eqb k "length" then JNum (Z.of_nat (List.length l)) else JUndef
  | JStr s => if String.eqb k "length" then JNum (Z.of_nat (String.length s)) else JUndef
  | _ => JUndef
  end.

(** Index access [v[0]]. *)
Definition getidx0 (v : jsv) : jsv :=
  match v with
  | JArr (x :: _) => x
  | JArr [] => JUndef
  | JStr (String c _) => JStr (String c EmptyString)
  | JObj fs => assoc_get "0" fs
  | _ => JUndef
  end.

(** Optional chaining [v?.k]. *)
Definition optprop (v : jsv) (k : string) : jsv :=
  match v with
  | JUndef | JNull => JUndef
  | _ => getprop v k
  end.

Definition optidx0 (v : jsv) : jsv :=
  match v with
  | JUndef | JNull => JUndef
  | _ => getidx0 v
  end.

(** Decimal rendering of an integer, as [String(n)]. *)
Fixpoint digits_of (fuel : nat) (n : Z) (acc : string) : string :=
  match fuel with
  | O => acc
  | S f =>
      let acc' := String (ascii_of_nat (48 + Z.to_nat (n mod 10))) acc in
      if n <? 10 then acc' else digits_of f (n / 10) acc'
  end.

Definition z_to_string (n : Z) : string :=
  if n <? 0 then String "-" (digits_of 64 (- n) EmptyString)
  else digits_of 64 n EmptyString.

(** [String(v)] as used by a template literal. *)
Fixpoint js_to_string (v : jsv) : string :=
  match v with
  | JUndef => "undefined"
  | JNull => "null"
  | JBool b => if b then "true" else "false"
  | JNum z => z_to_string z
  | JStr s => s
  | JArr l =>
      (fix join (l : list jsv) : string :=
         match l with
         | [] => EmptyString
         | [x] => match x with JUndef | JNull => EmptyString | _ => js_to_string x end
         | x :: rest =>
             String.append
               (match x with JUndef | JNull => EmptyString | _ => js_to_string x end)
               (String "," (join rest))
         end) l
  | JObj _ => "[object Object]"
  end.

(** ** Requests and the cache key *)

Record Message : Type := mkMessage { role : string; content : string }.

Definition dq : ascii := ascii_of_nat 34.
Definition bsl : ascii := ascii_of_nat 92.

Definition hex_digit (n : nat) : ascii :=
  if Nat.ltb n 10 then ascii_of_nat (48 + n) else ascii_of_nat (87 + n).

(** The escaping of one character by [JSON.stringify]. *)
Definition json_escape_char (c : ascii) : string :=
  let n := nat_of_ascii c in
  if Nat.eqb n 34 then String bsl (String dq EmptyString)
  else if Nat.eqb n 92 then String bsl (String bsl EmptyString)
  else if Nat.eqb n 8 then String bsl "b"
  else if Nat.eqb n 12 then String bsl "f"
  else if Nat.eqb n 10 then String bsl "n"
  else if Nat.eqb n 13 then String bsl "r"
  else if Nat.eqb n 9 then String bsl "t"
  else if Nat.ltb n 32 then
    String bsl (String "u" (String "0" (String "0"
      (String (hex_digit (Nat.div n 16)) (String (hex_digit (Nat.modulo n 16)) EmptyString)))))
  else String c EmptyString.

Fixpoint json_escape (s : string) : string :=
  match s with
  | EmptyString => EmptyString
  | String c rest => String.append (json_escape_char c) (json_escape rest)
  end.

Definition json_string (s : string) : string :=
  String dq (String.append (json_escape s) (String dq EmptyString)).

(** [JSON.stringify({ role, content })] *)
Definition json_message (m : Message) : string :=
  String.concat EmptyString
    ["{"; json_string "role"; ":"; json_string (role m); ",";
     json_string "content"; ":"; json_string (content m); "}"]%string.

(** [const cacheKey = JSON.stringify({ messages, model })] (line 63). *)
Definition cache_key (messages : list Message) (model : string) : string :=
  String.concat EmptyString
    ["{"; json_string "messages"; ":[";
     String.concat "," (map json_message messages); "],";
     json_string "model"; ":"; json_string model; "}"]%string.

(** ** The rate window [requestQueue] *)

(** [calculateDelay] (lines 32-40), with [Date.now()] passed as [now]. *)
Definition calculateDelay (requestQueue : list Z) (now : Z) : Z :=
  if Nat.ltb (List.length requestQueue) MAX_QUEUE_SIZE then 0
  else
    let oldestRequest := hd 0 requestQueue in
    let timeSinceOldest := now - oldestRequest in
    Z.max 0 (MIN_DELAY_MS - timeSinceOldest).

(** The [while] loop of [updateQueue]: drop entries at least a minute old. *)
Fixpoint trim_old (now : Z) (q : list Z) : list Z :=
  match q with
  | [] => []
  | t :: rest => if WINDOW_MS <=? now - t then trim_old now rest else q
  end.

(** [updateQueue] (lines 43-52). *)
Definition updateQueue (requestQueue : list Z) (now : Z) : list Z :=
  let q := trim_old now (requestQueue ++ [now]) in
  if Nat.ltb MAX_QUEUE_SIZE (List.length q) then tl q else q.

(** ** The response checks (lines 105-120)

    [validate_response data] is [Some msg] when one of the checks throws
    [new Error(msg)], and [None] when the response is accepted. *)
Definition validate_response (data : jsv) : option string :=
  if negb (truthy data) || negb (typeof_object data) then
    Some "Invalid response format from OpenRouter API"%string
  else
    let err := getprop data "error" in
    if truthy err then
      let m := getprop err "message" in
      Some (String.append "API Error: " (if truthy m then js_to_string m else "Unknown error"))
    else
      let choices := getprop data "choices" in
      if negb (truthy choices)
         || (match getprop choices "length" with JNum z => z =? 0 | _ => false end) then
        Some "Empty response from OpenRouter API"%string
      else
        let c := optprop (optprop (getidx0 choices) "message") "content" in
        if negb (truthy c) || negb (typeof_string c) then
          Some "Invalid response format from AI"%string
        else None.

(** ** Errors reaching the [catch] block (lines 124-150) *)

(** The fields of the caught value that the handler reads:
    [error.response?.status], [error.code] and [error.message]. *)
Record js_error : Type := mkError {
  err_status : option Z;
  err_code : option string;
  err_message : string
}.

(** [new Error(msg)], as thrown by the response checks. *)
Definition plain_error (msg : string) : js_error := mkError None None msg.

Definition status_is (e : js_error) (n : Z) : bool :=
  match err_status e with Some st => st =? n | None => false end.

Definition code_is (e : js_error) (c : string) : bool :=
  match err_code e with Some c' => String.eqb c' c | None => false end.

Definition MSG_RATE_LIMIT : string := "API Error: Rate limit exceeded after maximum retries".
Definition MSG_402 : string :=
  "OpenRouter API requires credits. Please visit https://openrouter.ai/settings/credits to add credits.".
Definition MSG_401 : string := "Invalid OpenRouter API key. Please check your configuration.".
Definition MSG_404 : string := "Selected AI model is not available. Please try again.".
Definition MSG_TIMEOUT : string := "Request timed out. Please try again.".
Definition MSG_FALLBACK : string := "Failed to make OpenRouter request".

(** The non-429 branch (lines 139-149). *)
Definition error_message (e : js_error) : string :=
  if status_is e 402 then MSG_402
  else if status_is e 401 then MSG_401
  else if status_is e 404 then MSG_404
  else if status_is e 408 || code_is e "ECONNABORTED" then MSG_TIMEOUT
  else if String.eqb (err_message e) EmptyString then MSG_FALLBACK
  else err_message e.

Inductive catch_result : Type :=
| CRetry (delayMs : Z) (retryCount : nat)
| CReject (msg : string).

(** The decision of the [catch] block for a request whose [retryCount] is
    [retryCount] ([undefined] is [0]). *)
Definition handle_error (e : js_error) (retryCount : nat) : catch_result :=
  if status_is e 429 then
    let currentRetryCount := S retryCount in
    if Nat.ltb currentRetryCount MAX_RETRIES then
      CRetry (BASE_DELAY_MS * 2 ^ (Z.of_nat currentRetryCount - 1)) currentRetryCount
    else CReject MSG_RATE_LIMIT
  else CReject (error_message e).

(** ** The scheduler state *)

(** A [PendingRequest]; its [resolve]/[reject] pair is identified by the
    handle [rq_id] given at submission. *)
Record Req : Type := mkReq {
  rq_id : nat;
  rq_messages : list Message;
  rq_model : string;
  rq_retry : nat
}.

(** Where a running [processNextRequest] call is suspended. *)
Inductive FrameKind : Type :=
| KThrottle (wake : Z)            (** [await sleep(delayMs)] before the call *)
| KUpstream                       (** [await axios.post(...)] *)
| KBackoff (wake : Z) (c : nat).  (** [await sleep(delayMs)] in the 429 branch *)

Record Frame : Type := mkFrame { fr_req : Req; fr_kind : FrameKind }.

Inductive outcome : Type :=
| Resolved (v : jsv)
| Rejected (msg : string).

(** Module state plus observation logs: [st_done] lists the [resolve] /
    [reject] calls, [st_calls] the [axios.post] calls, [st_pops] the
    [pendingRequests.shift()] results, [st_throttles] the [calculateDelay]
    results, [st_backoffs] the retry sleeps and [st_successes] the times
    [updateQueue] ran. *)
Record state : Type := mkState {
  st_pending : list Req;
  st_busy : bool;
  st_window : list Z;
  st_cache : list (string * jsv);
  st_now : Z;
  st_frames : list Frame;
  st_done : list (nat * outcome);
  st_calls : list nat;
  st_pops : list nat;
  st_throttles : list (nat * Z);
  st_backoffs : list (nat * Z);
  st_successes : list Z;
  st_next : nat
}.

Definition init : state := mkState [] false [] [] 0 [] [] [] [] [] [] [] 0.

Definition set_pending (s : state) (p : list Req) : state :=
  mkState p (st_busy s) (st_window s) (st_cache s) (st_now s) (st_frames s) (st_done s)
    (st_calls s) (st_pops s) (st_throttles s) (st_backoffs s) (st_successes s) (st_next s).
Definition set_busy (s : state) (b : bool) : state :=
  mkState (st_pending s) b (st_window s) (st_cache s) (st_now s) (st_frames s) (st_done s)
    (st_calls s) (st_pops s) (st_throttles s) (st_backoffs s) (st_successes s) (st_next s).
Definition set_frames (s : state) (fs : list Frame) : state :=
  mkState (st_pending s) (st_busy s) (st_window s) (st_cache s) (st_now s) fs (st_done s)
    (st_calls s) (st_pops s) (st_throttles s) (st_backoffs s) (st_successes s) (st_next s).
Definition set_cache (s : state) (c : list (string * jsv)) : state :=
  mkState (st_pending s) (st_busy s) (st_window s) c (st_now s) (st_frames s) (st_done s)
    (st_calls s) (st_pops s) (st_throttles s) (st_backoffs s) (st_successes s) (st_next s).
Definition set_now (s : state) (t : Z) : state :=
  mkState (st_pending s) (st_busy s) (st_window s) (st_cache s) t (st_frames s) (st_done s)
    (st_calls s) (st_pops s) (st_throttles s) (st_backoffs s) (st_successes s) (st_next s).

(** [resolve(v)] / [reject(new Error(msg))] of request [id]. *)
Definition fulfil (s : state) (id : nat) (o : outcome) : state :=
  mkState (st_pending s) (st_busy s) (st_window s) (st_cache s) (st_now s) (st_frames s)
    (st_done s ++ [(id, o)])
    (st_calls s) (st_pops s) (st_throttles s) (st_backoffs s) (st_successes s) (st_next s).

(** [isProcessing = true; const request = pendingRequests.shift()!] *)
Definition pop_head (s : state) (r : Req) (rest : list Req) : state :=
  mkState rest true (st_window s) (st_cache s) (st_now s) (st_frames s) (st_done s)
    (st_calls s) (st_pops s ++ [rq_id r]) (st_throttles s) (st_backoffs s) (st_successes s)
    (st_next s).

Definition log_throttle (s : state) (id : nat) (d : Z) : state :=
  mkState (st_pending s) (st_busy s) (st_window s) (st_cache s) (st_now s) (st_frames s)
    (st_done s) (st_calls s) (st_pops s) (st_throttles s ++ [(id, d)]) (st_backoffs s)
    (st_successes s) (st_next s).

Definition log_backoff (s : state) (id : nat) (d : Z) : state :=
  mkState (st_pending s) (st_busy s) (st_window s) (st_cache s) (st_now s) (st_frames s)
    (st_done s) (st_calls s) (st_pops s) (st_throttles s) (st_backoffs s ++ [(id, d)])
    (st_successes s) (st_next s).

(** [updateQueue()] after [axios.post] returned. *)
Definition record_success (s : state) : state :=
  mkState (st_pending s) (st_busy s) (updateQueue (st_window s) (st_now s)) (st_cache s)
    (st_now s) (st_frames s) (st_done s) (st_calls s) (st_pops s) (st_throttles s)
    (st_backoffs s) (st_successes s ++ [st_now s]) (st_next s).

(** [axios.post(...)] is issued for [r]; the call suspends on its result. *)
Definition issue (s : state) (r : Req) : state :=
  mkState (st_pending s) (st_busy s) (st_window s) (st_cache s) (st_now s)
    (st_frames s ++ [mkFrame r KUpstream]) (st_done s) (st_calls s ++ [rq_id r]) (st_pops s)
    (st_throttles s) (st_backoffs s) (st_successes s) (st_next s).

Definition add_frame (s : state) (f : Frame) : state := set_frames s (st_frames s ++ [f]).

(** [Map.prototype.get] / [Map.prototype.set] on [responseCache]. *)
Fixpoint cache_get (k : string) (c : list (string * jsv)) : option jsv :=
  match c with
  | [] => None
  | (k', v) :: rest => if String.eqb k k' then Some v else cache_get k rest
  end.

Fixpoint cache_set (k : string) (v : jsv) (c : list (string * jsv)) : list (string * jsv) :=
  match c with
  | [] => [(k, v)]
  | (k', v') :: rest =>
      if String.eqb k k' then (k', v) :: rest else (k', v') :: cache_set k v rest
  end.

(** ** [processNextRequest] (lines 55-155)

    [pnr fuel s] runs the synchronous part of one call, up to its first
    [await] or its return. On a cache hit the body calls
    [processNextRequest()] itself (line 68) and then returns from the [try],
    so the [finally] block runs as well: it clears [isProcessing] and calls
    [processNextRequest()] a second time (lines 152-153). The fuel bounds
    the nesting; [process] gives enough of it. *)
Fixpoint pnr (fuel : nat) (s : state) : state :=
  match fuel with
  | O => s
  | S f =>
      match st_pending s with
      | [] => s
      | r :: rest =>
          if st_busy s then s
          else
            let s1 := pop_head s r rest in
            let cacheKey := cache_key (rq_messages r) (rq_model r) in
            match cache_get cacheKey (st_cache s1) with
            | Some v =>
                let s2 := fulfil s1 (rq_id r) (Resolved v) in
                let s3 := pnr f (set_busy s2 false) in
                pnr f (set_busy s3 false)
            | None =>
                let delayMs := calculateDelay (st_window s1) (st_now s1) in
                let s2 := log_throttle s1 (rq_id r) delayMs in
                if 0 <? delayMs then add_frame s2 (mkFrame r (KThrottle (st_now s2 + delayMs)))
                else issue s2 r
            end
      end
  end.

Definition process (s : state) : state := pnr (S (List.length (st_pending s))) s.

(** The [finally] block. *)
Definition finally (s : state) : state := process (set_busy s false).

(** The [catch] block for request [r] and caught error [e]. *)
Definition on_error (s : state) (r : Req) (e : js_error) : state :=
  match handle_error e (rq_retry r) with
  | CRetry d c => add_frame (log_backoff s (rq_id r) d) (mkFrame r (KBackoff (st_now s + d) c))
  | CReject m => finally (fulfil s (rq_id r) (Rejected m))
  end.

(** ** Events of the event loop *)

Inductive upstream_result : Type :=
| UOk (data : jsv)         (** [axios.post] resolves with [response.data] *)
| UErr (e : js_error).     (** [axios.post] rejects *)

Inductive event : Type :=
| ESubmit (messages : list Message) (model : string)  (** [makeOpenRouterRequest] *)
| EAdvance (dt : Z)                                   (** time passes *)
| EWake (id : nat)                                    (** a [sleep] timer of [id] fires *)
| ERespond (id : nat) (o : upstream_result).          (** the call of [id] settles *)

Fixpoint find_frame (id : nat) (fs : list Frame) : option Frame :=
  match fs with
  | [] => None
  | f :: rest => if Nat.eqb (rq_id (fr_req f)) id then Some f else find_frame id rest
  end.

Fixpoint remove_frame (id : nat) (fs : list Frame) : list Frame :=
  match fs with
  | [] => []
  | f :: rest => if Nat.eqb (rq_id (fr_req f)) id then rest else f :: remove_frame id rest
  end.

Definition with_retry (r : Req) (c : nat) : Req :=
  mkReq (rq_id r) (rq_messages r) (rq_model r) c.

(** [makeOpenRouterRequest] (lines 157-167): push at the tail, and start the
    loop when at most [MAX_CONCURRENT_REQUESTS] requests are pending. *)
Definition submit (s : state) (messages : list Message) (model : string) : state :=
  let r := mkReq (st_next s) messages model 0 in
  let s1 :=
    mkState (st_pending s ++ [r]) (st_busy s) (st_window s) (st_cache s) (st_now s)
      (st_frames s) (st_done s) (st_calls s) (st_pops s) (st_throttles s) (st_backoffs s)
      (st_successes s) (S (st_next s)) in
  if Nat.leb (List.length (st_pending s1)) MAX_CONCURRENT_REQUESTS then process s1 else s1.

(** The continuation after [axios.post] settled for [r] (lines 102-123 and
    the [catch]). *)
Definition after_call (s : state) (r : Req) (o : upstream_result) : state :=
  match o with
  | UOk data =>
      let s1 := record_success s in
      match validate_response data with
      | None =>
          let cacheKey := cache_key (rq_messages r) (rq_model r) in
          finally (fulfil (set_cache s1 (cache_set cacheKey data (st_cache s1)))
                     (rq_id r) (Resolved data))
      | Some msg => on_error s1 r (plain_error msg)
      end
  | UErr e => on_error s r e
  end.

(** One event; [None] when it cannot happen in [s]. *)
Definition step (s : state) (e : event) : option state :=
  match e with
  | ESubmit m md => Some (submit s m md)
  | EAdvance dt => if dt <? 0 then None else Some (set_now s (st_now s + dt))
  | EWake id =>
      match find_frame id (st_frames s) with
      | Some (mkFrame r (KThrottle w)) =>
          if w <=? st_now s then
            Some (issue (set_frames s (remove_frame id (st_frames s))) r)
          else None
      | Some (mkFrame r (KBackoff w c)) =>
          if w <=? st_now s then
            let s1 := set_frames s (remove_frame id (st_frames s)) in
            Some (finally (set_pending s1 (with_retry r c :: st_pending s1)))
          else None
      | _ => None
      end
  | ERespond id o =>
      match find_frame id (st_frames s) with
      | Some (mkFrame r KUpstream) =>
          Some (after_call (set_frames s (remove_frame id (st_frames s))) r o)
      | _ => None
      end
  end.

Fixpoint exec (s : state) (es : list event) : option state :=
  match es with
  | [] => Some s
  | e :: rest => match step s e with Some s' => exec s' rest | None => None end
  end.

Inductive reachable : state -> Prop :=
| reach_init : reachable init
| reach_step : forall s e s', reachable s -> step s e = Some s' -> reachable s'.

(** ** Observations used by the statements *)

(** Every handle of the state: waiting, held by a suspended call, or
    fulfilled. *)
Definition frid (f : Frame) : nat := rq_id (fr_req f).

Definition ids_of (s : state) : list nat :=
  map rq_id (st_pending s) ++ map (fun f => rq_id (fr_req f)) (st_frames s)
  ++ map fst (st_done s).

(** The retry sleeps taken by request [id], in order. *)
Definition delays_of (id : nat) (l : list (nat * Z)) : list Z :=
  map snd (filter (fun p => Nat.eqb (fst p) id) l).

(** The retry sleeps [BASE_DELAY_MS * 2^(n-1)] for [n] from 1 while
    [n < MAX_RETRIES]. *)
Definition BACKOFF_TABLE : list Z := [10000; 20000; 40000; 80000].

Definition req_ok (b : list (nat * Z)) (r : Req) : Prop :=
  rq_retry r = List.length (delays_of (rq_id r) b) /\ (rq_retry r < MAX_RETRIES)%nat.

Definition frame_ok (b : list (nat * Z)) (f : Frame) : Prop :=
  match fr_kind f with
  | KBackoff _ c =>
      c = List.length (delays_of (rq_id (fr_req f)) b) /\ S (rq_retry (fr_req f)) = c
      /\ (c < MAX_RETRIES)%nat
  | _ => req_ok b (fr_req f)
  end.

(** The invariant of reachable states. *)
Record Inv (s : state) : Prop := {
  inv_perm : Permutation (ids_of s) (seq 0 (st_next s));
  inv_busy : st_busy s = true -> st_frames s <> [];
  inv_pending : Forall (req_ok (st_backoffs s)) (st_pending s);
  inv_frames : Forall (frame_ok (st_backoffs s)) (st_frames s);
  inv_sched : forall id, delays_of id (st_backoffs s)
                         = firstn (List.length (delays_of id (st_backoffs s))) BACKOFF_TABLE;
  inv_fresh : forall id, (st_next s <= id)%nat -> delays_of id (st_backoffs s) = [];
  inv_live : st_pending s <> [] -> st_frames s <> []
}.

(** ** Concrete runs *)

Definition user_msg (text : string) : list Message := [mkMessage "user" text].

Definition MODEL : string := "qwen/qwen2.5-vl-72b-instruct:free".

(** A well-formed completion body whose first choice carries [text]. *)
Definition completion (text : string) : jsv :=
  JObj [("choices"%string,
         JArr [JObj [("message"%string, JObj [("content"%string, JStr text)])]])].

Definition http_error (status : Z) : js_error :=
  mkError (Some status) None
    (String.append "Request failed with status code " (z_to_string status)).

(** Successful-dispatch timestamps in the trailing minute ending at [t]. *)
Definition count_in_window (ts : list Z) (t : Z) : nat :=
  List.length (filter (fun x => (t - WINDOW_MS <? x) && (x <=? t)) ts).

(** Three distinct requests, each answered at once. *)
Definition run_three : list event :=
  [ESubmit (user_msg "a") MODEL; ESubmit (user_msg "b") MODEL; ESubmit (user_msg "c") MODEL;
   ERespond 0 (UOk (completion "x")); ERespond 1 (UOk (completion "y"));
   EAdvance 30000; EWake 2; ERespond 2 (UOk (completion "z"))].

(** A repeated request is served from the cache while two more requests
    wait behind it. *)
Definition run_hit_then_two (m1 m2 : list Message) : list event :=
  [ESubmit (user_msg "a") MODEL; ESubmit (user_msg "a") MODEL;
   ESubmit m1 MODEL; ESubmit m2 MODEL; ERespond 0 (UOk (completion "x"))].

(** Request 2 is rate limited while request 3 runs next to it; request 4
    was submitted after request 2. *)
Definition run_retry_overtaken : list event :=
  run_hit_then_two (user_msg "r") (user_msg "t") ++
  [ESubmit (user_msg "u") MODEL;
   ERespond 2 (UErr (http_error 429)); ERespond 3 (UOk (completion "y"));
   EAdvance 10000; EWake 2; EAdvance 20000; EWake 4; EWake 2].

(** One request answered 429 on every attempt. *)
Definition run_all_429 : list event :=
  [ESubmit (user_msg "a") MODEL;
   ERespond 0 (UErr (http_error 429)); EAdvance 10000; EWake 0;
   ERespond 0 (UErr (http_error 429)); EAdvance 20000; EWake 0;
   ERespond 0 (UErr (http_error 429)); EAdvance 40000; EWake 0;
   ERespond 0 (UErr (http_error 429)); EAdvance 80000; EWake 0;
   ERespond 0 (UErr (http_error 429))].

(** A body that carries an [error] field whose value is [null]. *)
Definition body_error_null : jsv :=
  JObj [("error"%string, JNull);
        ("choices"%string,
         JArr [JObj [("message"%string, JObj [("content"%string, JStr "ok")])]])].

(** Three distinct requests; the first is answered after [t1] ms, the
    second [dt] ms later. *)
Definition run_spaced (t1 dt : Z) : list event :=
  [ESubmit (user_msg "a") MODEL; ESubmit (user_msg "b") MODEL; ESubmit (user_msg "c") MODEL;
   EAdvance t1; ERespond 0 (UOk (completion "x"));
   EAdvance dt; ERespond 1 (UOk (completion "y"))].

(** The state reached by a run from [init]. *)
Definition state_after (es : list event) : state :=
  match exec init es with Some s => s | None => init end.

(** ** What the scheduler keeps and hands out *)

(** A fulfilment as the callers see it: a resolved body passed the response
    checks, a rejection carries a non-empty message. *)
Definition done_ok (p : nat * outcome) : Prop :=
  match snd p with
  | Resolved v => validate_response v = None
  | Rejected m => m <> EmptyString
  end.

(** A second invariant of reachable states: the rate window and the
    response cache. *)
Record Inv2 (s : state) : Prop := {
  inv2_wlen : (List.length (st_window s) <= MAX_QUEUE_SIZE)%nat;
  inv2_wnow : Forall (fun t => t <= st_now s) (st_window s);
  inv2_cache : Forall (fun kv => validate_response (snd kv) = None) (st_cache s);
  inv2_keys : NoDup (map fst (st_cache s));
  inv2_done : Forall done_ok (st_done s);
  inv2_throttles : Forall (fun p => 0 <= snd p <= MIN_DELAY_MS) (st_throttles s)
}.

(** Upstream calls of request [id] so far. *)
Definition calls_of (id : nat) (s : state) : nat := count_occ Nat.eq_dec (st_calls s) id.

(** Calls of [id] in flight: frames suspended on [axios.post]. *)
Definition upstream_of (id : nat) (fs : list Frame) : nat :=
  List.length (filter (fun f => Nat.eqb (frid f) id
                                && match fr_kind f with KUpstream => true | _ => false end) fs).

(** The third invariant counts upstream calls: one per retry sleep taken,
    plus the call in flight; [fl] lists the requests whose call has settled
    but whose continuation has not finished yet. *)
Record Inv3 (s : state) (fl : list nat) : Prop := {
  inv3_le : forall id, (calls_of id s <= List.length (delays_of id (st_backoffs s)) + 1)%nat;
  inv3_eq : forall id, ~ In id (map fst (st_done s)) ->
    calls_of id s = (List.length (delays_of id (st_backoffs s)) + upstream_of id (st_frames s)
                     + count_occ Nat.eq_dec fl id)%nat;
  inv3_fresh : forall id, (st_next s <= id)%nat -> calls_of id s = 0%nat
}.

(** ** [makeOpenRouterRequestWithDebug] (lines 170-182)

    The message of the error rethrown when the request is rejected with
    [new Error(m)]: [err?.message] is [m]; when [m] is empty,
    [JSON.stringify(err)] of an [Error] (no own enumerable property) is
    ["{}"]. *)
Definition debug_error_message (m : string) : string :=
  let json := "{}"%string in
  let errorMsg :=
    if negb (String.eqb m EmptyString) then m
    else if negb (String.eqb json EmptyString) then json
    else "Unknown OpenRouter error"%string in
  String.append "[OpenRouter] " errorMsg.

(** ** The retry loop of [generateBusinessIdea] (lines 209-245) *)

(** [response?.choices?.[0]?.message?.content] *)
Definition first_content (v : jsv) : jsv :=
  optprop (optprop (optidx0 (optprop v "choices")) "message") "content".

(** One attempt (lines 212-216): the content, or the message of the error
    caught for it. *)
Definition idea_attempt (o : outcome) : string + string :=
  match o with
  | Resolved v =>
      let c := first_content v in
      if negb (truthy c) || negb (typeof_string c) then inr "Invalid response format from AI"%string
      else match c with
           | JStr text => inl text
           | _ => inr "Invalid response format from AI"%string
           end
  | Rejected m => inr m
  end.

Definition IDEA_FAILURE_PREFIX : string :=
  "Failed to generate a complete business idea after 3 attempts. Please try again later. Details: ".

Inductive idea_result : Type :=
| IdeaReturn (text : string)          (** [return patchedContent] *)
| IdeaThrow (msg : string)            (** the throw of line 239 *)
| IdeaRethrowLast (last : option string)  (** [throw lastError] (line 245) *)
| IdeaWaiting.                        (** an awaited request has not settled *)

(** The [for] loop, fed with the outcomes of the successive
    [makeOpenRouterRequest] calls; it returns the result and the number of
    calls made. [patch] is the section filling of lines 219-233, a function
    of the content alone. The 1500 ms pause between attempts does not
    affect the result. *)
Fixpoint idea_loop (patch : string -> string) (fuel attempt : nat) (lastError : option string)
    (rs : list outcome) : idea_result * nat :=
  match fuel with
  | O => (IdeaRethrowLast lastError, O)
  | S f =>
      if Nat.leb attempt 3 then
        match rs with
        | [] => (IdeaWaiting, O)
        | o :: rest =>
            match idea_attempt o with
            | inl content => (IdeaReturn (patch content), 1%nat)
            | inr msg =>
                if Nat.eqb attempt 3 then (IdeaThrow (String.append IDEA_FAILURE_PREFIX msg), 1%nat)
                else let (r, n) := idea_loop patch f (S attempt) (Some msg) rest in (r, S n)
            end
        end
      else (IdeaRethrowLast lastError, O)
  end.

Definition generateBusinessIdea_loop (patch : string -> string) (rs : list outcome)
    : idea_result * nat :=
  idea_loop patch 3 1 None rs.

(** ** Reading back a JSON string *)

Definition hex_val (c : ascii) : option nat :=
  let n := nat_of_ascii c in
  if Nat.leb 48 n && Nat.ltb n 58 then Some (n - 48)%nat
  else if Nat.leb 97 n && Nat.ltb n 103 then Some (n - 87)%nat
  else None.

Definition prepend (c : ascii) (o : option (string * string)) : option (string * string) :=
  match o with
  | Some (t, r) => Some (String c t, r)
  | None => None
  end.

(** The body of a JSON string after its opening quote, up to the closing
    quote: the decoded text and what follows. *)
Fixpoint json_unescape (s : string) : option (string * string) :=
  match s with
  | EmptyString => None
  | String c rest =>
      if Ascii.eqb c dq then Some (EmptyString, rest)
      else if Ascii.eqb c bsl then
        match rest with
        | EmptyString => None
        | String e rest2 =>
            if Ascii.eqb e dq then prepend dq (json_unescape rest2)
            else if Ascii.eqb e bsl then prepend bsl (json_unescape rest2)
            else if Ascii.eqb e "b" then prepend (ascii_of_nat 8) (json_unescape rest2)
            else if Ascii.eqb e "f" then prepend (ascii_of_nat 12) (json_unescape rest2)
            else if Ascii.eqb e "n" then prepend (ascii_of_nat 10) (json_unescape rest2)
            else if Ascii.eqb e "r" then prepend (ascii_of_nat 13) (json_unescape rest2)
            else if Ascii.eqb e "t" then prepend (ascii_of_nat 9) (json_unescape rest2)
            else if Ascii.eqb e "u" then
              match rest2 with
              | String z1 (String z2 (String h1 (String h2 rest3))) =>
                  if Ascii.eqb z1 "0" && Ascii.eqb z2 "0" then
                    match hex_val h1, hex_val h2 with
                    | Some a, Some b => prepend (ascii_of_nat (16 * a + b)) (json_unescape rest3)
                    | _, _ => None
                    end
                  else None
              | _ => None
              end
            else None
        end
      else prepend c (json_unescape rest)
  end.

Definition parse_json_string (s : string) : option (string * string) :=
  match s with
  | String c rest => if Ascii.eqb c dq then json_unescape rest else None
  | EmptyString => None
  end.

(** ** Facts about [pnr] *)

Section PnrInduction.
Variable P : state -> Prop.
Hypothesis P_busy : forall s b, P s -> P (set_busy s b).
Hypothesis P_pop : forall s r rest, st_pending s = r :: rest -> P s -> P (pop_head s r rest).
Hypothesis P_fulfil : forall s i o, P s -> P (fulfil s i o).
Hypothesis P_throttle : forall s i d, P s -> P (log_throttle s i d).
Hypothesis P_frame : forall s f, P s -> P (add_frame s f).
Hypothesis P_issue : forall s r, P s -> P (issue s r).

Lemma pnr_preserves : forall fuel s, P s -> P (pnr fuel s).
Proof.
  induction fuel as [|f IH]; intros s Hs; simpl; [exact Hs|].
  destruct (st_pending s) as [|r rest] eqn:Hp; [exact Hs|].
  destruct (st_busy s); [exact Hs|].
  destruct (cache_get _ _).
  - apply IH, P_busy, IH, P_busy, P_fulfil, P_pop; assumption.
  - destruct (0 <? _); [apply P_frame | apply P_issue]; apply P_throttle, P_pop; assumption.
Qed.
End PnrInduction.

Lemma pnr_backoffs : forall fuel s, st_backoffs (pnr fuel s) = st_backoffs s.
Proof.
  intros fuel s. apply (pnr_preserves (fun s' => st_backoffs s' = st_backoffs s));
    try reflexivity; intros; simpl; assumption.
Qed.

Lemma pnr_next : forall fuel s, st_next (pnr fuel s) = st_next s.
Proof.
  intros fuel s. apply (pnr_preserves (fun s' => st_next s' = st_next s));
    try reflexivity; intros; simpl; assumption.
Qed.

Lemma pnr_window : forall fuel s, st_window (pnr fuel s) = st_window s.
Proof.
  intros fuel s. apply (pnr_preserves (fun s' => st_window s' = st_window s));
    try reflexivity; intros; simpl; assumption.
Qed.

Lemma pnr_successes : forall fuel s, st_successes (pnr fuel s) = st_successes s.
Proof.
  intros fuel s. apply (pnr_preserves (fun s' => st_successes s' = st_successes s));
    try reflexivity; intros; simpl; assumption.
Qed.

Lemma pnr_cache : forall fuel s, st_cache (pnr fuel s) = st_cache s.
Proof.
  intros fuel s. apply (pnr_preserves (fun s' => st_cache s' = st_cache s));
    try reflexivity; intros; simpl; assumption.
Qed.

Lemma pnr_done : forall fuel s, exists l, st_done (pnr fuel s) = st_done s ++ l.
Proof.
  intros fuel s. apply (pnr_preserves (fun s' => exists l, st_done s' = st_done s ++ l)).
  all: try (intros s0 ? ? ? [l Hl]; exists l; exact Hl).
  all: try (intros s0 ? ? [l Hl]; exists l; exact Hl).
  all: try (intros s0 ? [l Hl]; exists l; exact Hl).
  - intros s0 i o [l Hl]. exists (l ++ [(i, o)]). simpl. rewrite Hl, app_assoc. reflexivity.
  - exists []. rewrite app_nil_r. reflexivity.
Qed.

Lemma pnr_pending_length : forall fuel s,
  (List.length (st_pending (pnr fuel s)) <= List.length (st_pending s))%nat.
Proof.
  intros fuel s.
  apply (pnr_preserves (fun s' => (List.length (st_pending s') <= List.length (st_pending s))%nat));
    simpl; try lia; intros s0 r rest Hp H; rewrite Hp in H; simpl in H; lia.
Qed.

Lemma pnr_perm : forall fuel s L,
  Permutation (ids_of s) L -> Permutation (ids_of (pnr fuel s)) L.
Proof.
  induction fuel as [|f IH]; intros s L H; simpl; [exact H|].
  destruct (st_pending s) as [|r rest] eqn:Hp; [exact H|].
  destruct (st_busy s); [exact H|].
  unfold ids_of in H; rewrite Hp in H; simpl in H.
  destruct (cache_get _ _).
  - apply IH, IH. unfold ids_of; simpl.
    rewrite map_app, <- H. simpl. rewrite !app_assoc.
    apply Permutation_sym, Permutation_cons_append.
  - destruct (0 <? _); unfold ids_of; simpl; rewrite <- H, map_app; simpl;
      rewrite <- (app_assoc _ [_] _); simpl; rewrite !app_assoc;
      apply Permutation_sym, Permutation_middle.
Qed.

Lemma pnr_busy : forall fuel s,
  (st_busy s = true -> st_frames s <> []) ->
  st_busy (pnr fuel s) = true -> st_frames (pnr fuel s) <> [].
Proof.
  induction fuel as [|f IH]; intros s H; simpl; [exact H|].
  destruct (st_pending s) as [|r rest]; [exact H|].
  destruct (st_busy s); [intros _; apply H; reflexivity|].
  destruct (cache_get _ _).
  - apply IH. simpl. discriminate.
  - destruct (0 <? _); simpl; intros _ Hn; apply app_eq_nil in Hn; destruct Hn; discriminate.
Qed.

Lemma pnr_ok : forall fuel s,
  Forall (req_ok (st_backoffs s)) (st_pending s) ->
  Forall (frame_ok (st_backoffs s)) (st_frames s) ->
  Forall (req_ok (st_backoffs s)) (st_pending (pnr fuel s)) /\
  Forall (frame_ok (st_backoffs s)) (st_frames (pnr fuel s)).
Proof.
  induction fuel as [|f IH]; intros s Hp Hf; simpl; [tauto|].
  destruct (st_pending s) as [|r rest] eqn:Hpe; [split; [rewrite Hpe; constructor | assumption]|].
  destruct (st_busy s); [split; [rewrite Hpe|]; assumption|].
  inversion Hp as [|? ? Hr Hrest]; subst.
  destruct (cache_get _ _).
  - match goal with |- context [pnr f (set_busy (pnr f ?s2) false)] => set (s3 := s2) end.
    assert (E2 : st_backoffs s3 = st_backoffs s) by reflexivity.
    destruct (IH s3) as [A B]; rewrite ?E2; try assumption.
    assert (E3 : st_backoffs (set_busy (pnr f s3) false) = st_backoffs s)
      by (simpl; rewrite pnr_backoffs; exact E2).
    rewrite <- E3. apply IH; rewrite E3; simpl; assumption.
  - assert (Hr' : forall k, Forall (frame_ok (st_backoffs s)) [mkFrame r k]
              -> Forall (frame_ok (st_backoffs s)) (st_frames s ++ [mkFrame r k]))
      by (intros k Hk; apply Forall_app; split; assumption).
    destruct (0 <? _); simpl; split; try assumption; apply Hr'; constructor; auto.
Qed.

Lemma pnr_live : forall fuel s,
  (List.length (st_pending s) < fuel)%nat ->
  (st_busy s = true -> st_frames s <> []) ->
  st_pending (pnr fuel s) <> [] -> st_frames (pnr fuel s) <> [].
Proof.
  induction fuel as [|f IH]; intros s Hlen H; simpl; [lia|].
  destruct (st_pending s) as [|r rest] eqn:Hp; [congruence|].
  destruct (st_busy s) eqn:Hb; [intros _; apply H; reflexivity|].
  simpl in Hlen.
  destruct (cache_get _ _).
  - apply IH; simpl.
    + match goal with |- context [pnr f (set_busy ?s2 false)] =>
        pose proof (pnr_pending_length f (set_busy s2 false)) as Hl end.
      simpl in Hl. lia.
    + discriminate.
  - destruct (0 <? _); simpl; intros _ Hn; apply app_eq_nil in Hn; destruct Hn; discriminate.
Qed.

(** ** Helper lemmas for the invariant *)


Lemma find_frame_spec : forall id fs f,
  find_frame id fs = Some f ->
  frid f = id /\ In f fs /\ Permutation fs (f :: remove_frame id fs).
Proof.
  induction fs as [|g fs IH]; intros f H; simpl in H; [discriminate|].
  destruct (Nat.eqb (rq_id (fr_req g)) id) eqn:E; simpl; rewrite E.
  - inversion H; subst. apply Nat.eqb_eq in E. split; [exact E|]. split; [left; reflexivity|].
    reflexivity.
  - destruct (IH f H) as [A [B C]]. split; [exact A|]. split; [right; exact B|].
    rewrite C at 1. apply perm_swap.
Qed.

Lemma remove_frame_incl : forall id fs f, In f (remove_frame id fs) -> In f fs.
Proof.
  induction fs as [|g fs IH]; intros f H; simpl in *; [exact H|].
  destruct (Nat.eqb _ _); [right; exact H|]. destruct H; [left; exact H | right; auto].
Qed.

Lemma delays_of_app_other : forall i j d b,
  i <> j -> delays_of i (b ++ [(j, d)]) = delays_of i b.
Proof.
  intros i j d b H. unfold delays_of. rewrite filter_app, map_app. simpl.
  destruct (Nat.eqb j i) eqn:E; [apply Nat.eqb_eq in E; congruence|].
  rewrite app_nil_r. reflexivity.
Qed.

Lemma delays_of_app_same : forall i d b,
  delays_of i (b ++ [(i, d)]) = delays_of i b ++ [d].
Proof.
  intros i d b. unfold delays_of. rewrite filter_app, map_app. simpl.
  rewrite Nat.eqb_refl. reflexivity.
Qed.

Lemma ids_nodup : forall s, Inv s -> NoDup (ids_of s).
Proof.
  intros s H. eapply Permutation_NoDup; [apply Permutation_sym, (inv_perm s H)|].
  apply seq_NoDup.
Qed.

Lemma ids_below : forall s i, Inv s -> In i (ids_of s) -> (i < st_next s)%nat.
Proof.
  intros s i H Hi. eapply Permutation_in in Hi; [|exact (inv_perm s H)].
  apply in_seq in Hi. lia.
Qed.

Lemma process_inv : forall s,
  Permutation (ids_of s) (seq 0 (st_next s)) ->
  (st_busy s = true -> st_frames s <> []) ->
  Forall (req_ok (st_backoffs s)) (st_pending s) ->
  Forall (frame_ok (st_backoffs s)) (st_frames s) ->
  (forall id, delays_of id (st_backoffs s)
              = firstn (List.length (delays_of id (st_backoffs s))) BACKOFF_TABLE) ->
  (forall id, (st_next s <= id)%nat -> delays_of id (st_backoffs s) = []) ->
  Inv (process s).
Proof.
  intros s Hperm Hbusy Hp Hf Hs Hfr. unfold process.
  destruct (pnr_ok (S (List.length (st_pending s))) s Hp Hf) as [A B].
  constructor; rewrite ?pnr_backoffs, ?pnr_next; auto.
  - apply pnr_perm. exact Hperm.
  - apply pnr_busy. exact Hbusy.
  - apply pnr_live; auto.
Qed.

Lemma finally_inv : forall s,
  Permutation (ids_of s) (seq 0 (st_next s)) ->
  Forall (req_ok (st_backoffs s)) (st_pending s) ->
  Forall (frame_ok (st_backoffs s)) (st_frames s) ->
  (forall id, delays_of id (st_backoffs s)
              = firstn (List.length (delays_of id (st_backoffs s))) BACKOFF_TABLE) ->
  (forall id, (st_next s <= id)%nat -> delays_of id (st_backoffs s) = []) ->
  Inv (finally s).
Proof.
  intros s Hperm Hp Hf Hs Hfr. apply process_inv; simpl; auto. discriminate.
Qed.

(** The backoff computed for a request with [k] earlier retries is the
    [k]-th entry of the table. *)
Lemma backoff_table_step : forall k,
  (S k < MAX_RETRIES)%nat ->
  firstn k BACKOFF_TABLE ++ [BASE_DELAY_MS * 2 ^ (Z.of_nat (S k) - 1)]
  = firstn (S k) BACKOFF_TABLE.
Proof.
  intros k Hk. unfold MAX_RETRIES in Hk.
  do 4 (destruct k as [|k]; [reflexivity|]). lia.
Qed.

(** ** The invariant holds in every reachable state *)

Lemma init_inv : Inv init.
Proof.
  constructor; simpl; try constructor; try discriminate; try tauto.
Qed.

Lemma submit_inv : forall s m md, Inv s -> Inv (submit s m md).
Proof.
  intros s m md H. pose proof (inv_perm s H) as Hp. unfold ids_of in Hp.
  assert (Hr : req_ok (st_backoffs s) (mkReq (st_next s) m md 0)).
  { unfold req_ok; simpl. rewrite (inv_fresh s H (st_next s)) by lia. simpl.
    unfold MAX_RETRIES. lia. }
  assert (Hperm : Permutation
    (map rq_id (st_pending s ++ [mkReq (st_next s) m md 0])
     ++ map frid (st_frames s) ++ map fst (st_done s)) (seq 0 (S (st_next s)))).
  { rewrite seq_S, map_app, <- app_assoc. simpl. rewrite <- Permutation_middle.
    unfold frid. rewrite Hp. apply Permutation_cons_append. }
  unfold submit. destruct (Nat.leb _ _) eqn:Hle.
  - apply process_inv; simpl; try exact (inv_busy s H); try exact (inv_sched s H); auto.
    + apply Forall_app; split; [exact (inv_pending s H)|]. constructor; [exact Hr|constructor].
    + exact (inv_frames s H).
    + intros id Hid. apply (inv_fresh s H). lia.
  - simpl in *. constructor; simpl; try exact (inv_busy s H); try exact (inv_sched s H); auto.
    + apply Forall_app; split; [exact (inv_pending s H)|]. constructor; [exact Hr|constructor].
    + exact (inv_frames s H).
    + intros id Hid. apply (inv_fresh s H). lia.
    + intros _. apply (inv_live s H). intro Hn. rewrite Hn in Hle. discriminate.
Qed.

(** A state from which the request [r] has been taken out, before the
    running call puts it back, fulfils it or parks it in a retry sleep. *)
Record Detached (s : state) (r : Req) : Prop := {
  det_perm : Permutation (rq_id r :: ids_of s) (seq 0 (st_next s));
  det_pending : Forall (req_ok (st_backoffs s)) (st_pending s);
  det_frames : Forall (frame_ok (st_backoffs s)) (st_frames s);
  det_sched : forall id, delays_of id (st_backoffs s)
                         = firstn (List.length (delays_of id (st_backoffs s))) BACKOFF_TABLE;
  det_fresh : forall id, (st_next s <= id)%nat -> delays_of id (st_backoffs s) = []
}.

Lemma remove_perm : forall s id f,
  find_frame id (st_frames s) = Some f ->
  Permutation (ids_of s) (frid f :: ids_of (set_frames s (remove_frame id (st_frames s)))).
Proof.
  intros s id f Hf. destruct (find_frame_spec _ _ _ Hf) as [_ [_ Hp]].
  unfold ids_of; simpl. fold frid.
  transitivity (map rq_id (st_pending s) ++ map frid (f :: remove_frame id (st_frames s))
                ++ map fst (st_done s)).
  - apply Permutation_app_head, Permutation_app_tail, Permutation_map, Hp.
  - simpl. apply Permutation_sym, Permutation_middle.
Qed.

Lemma detach : forall s id f,
  Inv s -> find_frame id (st_frames s) = Some f ->
  (forall w c, fr_kind f <> KBackoff w c) ->
  Detached (set_frames s (remove_frame id (st_frames s))) (fr_req f).
Proof.
  intros s id f H Hf Hk. destruct (find_frame_spec _ _ _ Hf) as [_ [Hin _]].
  constructor; simpl.
  - rewrite <- (remove_perm s id f Hf). exact (inv_perm s H).
  - exact (inv_pending s H).
  - pose proof (inv_frames s H) as Hfs. rewrite Forall_forall in *.
    intros g Hg. apply Hfs. eapply remove_frame_incl; exact Hg.
  - exact (inv_sched s H).
  - exact (inv_fresh s H).
Qed.

Lemma detached_ok : forall s id f,
  Inv s -> find_frame id (st_frames s) = Some f ->
  (forall w c, fr_kind f <> KBackoff w c) -> req_ok (st_backoffs s) (fr_req f).
Proof.
  intros s id f H Hf Hk. destruct (find_frame_spec _ _ _ Hf) as [_ [Hin _]].
  pose proof (proj1 (Forall_forall _ _) (inv_frames s H) f Hin) as Hok.
  unfold frame_ok in Hok. destruct (fr_kind f) eqn:E; auto. exfalso; eapply Hk; reflexivity.
Qed.

Lemma detached_not_in : forall s r, Detached s r -> ~ In (rq_id r) (ids_of s).
Proof.
  intros s r H. pose proof (Permutation_NoDup (Permutation_sym (det_perm s r H)) (seq_NoDup _ _)) as N.
  inversion N; assumption.
Qed.

Lemma detached_below : forall s r i, Detached s r -> In i (rq_id r :: ids_of s) -> (i < st_next s)%nat.
Proof.
  intros s r i H Hi. eapply Permutation_in in Hi; [|exact (det_perm s r H)].
  apply in_seq in Hi. lia.
Qed.

Lemma detached_fulfil : forall s r o, Detached s r -> Inv (finally (fulfil s (rq_id r) o)).
Proof.
  intros s r o H. apply finally_inv; simpl; try exact (det_pending s r H);
    try exact (det_frames s r H); try exact (det_sched s r H); try exact (det_fresh s r H).
  rewrite <- (det_perm s r H). unfold ids_of; simpl.
  rewrite map_app, !app_assoc. apply Permutation_sym, Permutation_cons_append.
Qed.

Lemma detached_record : forall s r, Detached s r -> Detached (record_success s) r.
Proof. intros s r []; constructor; assumption. Qed.

Lemma detached_cache : forall s r c, Detached s r -> Detached (set_cache s c) r.
Proof. intros s r c []; constructor; assumption. Qed.

Lemma handle_error_retry : forall e k d c,
  handle_error e k = CRetry d c ->
  status_is e 429 = true /\ c = S k /\ (c < MAX_RETRIES)%nat
  /\ d = BASE_DELAY_MS * 2 ^ (Z.of_nat c - 1).
Proof.
  intros e k d c H. unfold handle_error in H.
  destruct (status_is e 429); [|discriminate].
  destruct (Nat.ltb (S k) MAX_RETRIES) eqn:E; [|discriminate].
  apply Nat.ltb_lt in E. inversion H; subst. auto.
Qed.

Lemma req_ok_other : forall b r j d,
  rq_id r <> j -> req_ok b r -> req_ok (b ++ [(j, d)]) r.
Proof. intros b r j d Hn H. unfold req_ok in *. rewrite delays_of_app_other; auto. Qed.

Lemma frame_ok_other : forall b f j d,
  frid f <> j -> frame_ok b f -> frame_ok (b ++ [(j, d)]) f.
Proof.
  intros b f j d Hn H. unfold frame_ok, req_ok in *. unfold frid in Hn.
  rewrite delays_of_app_other; auto.
Qed.

Lemma detached_on_error : forall s r e,
  Detached s r -> req_ok (st_backoffs s) r -> Inv (on_error s r e).
Proof.
  intros s r e H Hr. unfold on_error.
  destruct (handle_error e (rq_retry r)) as [d c|m] eqn:He; [|apply detached_fulfil; exact H].
  destruct (handle_error_retry _ _ _ _ He) as [_ [Hc [Hlt Hd]]].
  pose proof (detached_not_in s r H) as Hni.
  assert (Hlt' : (rq_id r < st_next s)%nat) by (apply (detached_below s r _ H); left; reflexivity).
  unfold ids_of in Hni.
  constructor; simpl.
  - rewrite <- (det_perm s r H). unfold ids_of; simpl.
    rewrite map_app, <- app_assoc. simpl. rewrite !app_assoc.
    apply Permutation_sym, Permutation_middle.
  - intros _ Hn. apply app_eq_nil in Hn. destruct Hn; discriminate.
  - pose proof (det_pending s r H) as Hp. rewrite Forall_forall in *.
    intros r' Hr'. apply req_ok_other; [|auto].
    intro Heq. apply Hni. rewrite <- Heq. apply in_or_app. left. apply in_map. exact Hr'.
  - apply Forall_app. split.
    + pose proof (det_frames s r H) as Hp. rewrite Forall_forall in *.
      intros f Hf. apply frame_ok_other; [|auto].
      intro Heq. apply Hni. rewrite <- Heq. apply in_or_app. right. apply in_or_app. left.
      apply in_map. exact Hf.
    + constructor; [|constructor]. unfold frame_ok; simpl.
      destruct Hr as [Hr1 Hr2]. rewrite delays_of_app_same, length_app. simpl. lia.
  - intros id. destruct (Nat.eq_dec id (rq_id r)) as [->|Hne].
    + rewrite delays_of_app_same, length_app. simpl.
      destruct Hr as [Hr1 Hr2]. rewrite (det_sched s r H (rq_id r)), length_firstn.
      rewrite <- Hr1. replace (Init.Nat.min (rq_retry r) (List.length BACKOFF_TABLE)) with (rq_retry r)
        by (simpl; unfold MAX_RETRIES in Hr2; lia).
      rewrite Nat.add_1_r. subst d c. apply backoff_table_step. exact Hlt.
    + rewrite delays_of_app_other by exact Hne. apply (det_sched s r H).
  - intros id Hid. rewrite delays_of_app_other by lia. apply (det_fresh s r H id Hid).
  - intros _ Hn. apply app_eq_nil in Hn. destruct Hn; discriminate.
Qed.

Lemma detached_issue : forall s r,
  Detached s r -> req_ok (st_backoffs s) r -> Inv (issue s r).
Proof.
  intros s r H Hr. constructor; simpl.
  - rewrite <- (det_perm s r H). unfold ids_of; simpl.
    rewrite map_app, <- app_assoc. simpl. rewrite !app_assoc.
    apply Permutation_sym, Permutation_middle.
  - intros _ Hn. apply app_eq_nil in Hn. destruct Hn; discriminate.
  - exact (det_pending s r H).
  - apply Forall_app. split; [exact (det_frames s r H)|]. constructor; [exact Hr|constructor].
  - exact (det_sched s r H).
  - exact (det_fresh s r H).
  - intros _ Hn. apply app_eq_nil in Hn. destruct Hn; discriminate.
Qed.

Lemma step_inv : forall s e s', Inv s -> step s e = Some s' -> Inv s'.
Proof.
  intros s e s' H Hs. destruct e as [m md|dt|id|id o]; simpl in Hs.
  - inversion Hs; subst. apply submit_inv. exact H.
  - destruct (dt <? 0); inversion Hs; subst. destruct H; constructor; assumption.
  - destruct (find_frame id (st_frames s)) as [[r k]|] eqn:Hf; [|discriminate].
    destruct k as [w| |w c]; [| discriminate |].
    + destruct (w <=? st_now s); inversion Hs; subst.
      apply detached_issue.
      * exact (detach s id _ H Hf ltac:(discriminate)).
      * exact (detached_ok s id _ H Hf ltac:(discriminate)).
    + destruct (w <=? st_now s); inversion Hs; subst.
      destruct (find_frame_spec _ _ _ Hf) as [Hid [Hin _]].
      pose proof (proj1 (Forall_forall _ _) (inv_frames s H) _ Hin) as Hok.
      unfold frame_ok in Hok; simpl in Hok. destruct Hok as [Hc1 [Hc2 Hc3]].
      apply finally_inv; simpl.
      * rewrite <- (inv_perm s H), (remove_perm s id _ Hf). unfold ids_of; simpl.
        unfold frid; simpl. reflexivity.
      * constructor; [|exact (inv_pending s H)]. unfold req_ok; simpl. split; [|exact Hc3].
        exact Hc1.
      * pose proof (inv_frames s H) as Hfs. rewrite Forall_forall in *.
        intros g Hg. apply Hfs. eapply remove_frame_incl; exact Hg.
      * exact (inv_sched s H).
      * exact (inv_fresh s H).
  - destruct (find_frame id (st_frames s)) as [[r k]|] eqn:Hf; [|discriminate].
    destruct k as [w| |w c]; try discriminate.
    inversion Hs; subst.
    pose proof (detach s id _ H Hf ltac:(discriminate)) as D. simpl in D.
    pose proof (detached_ok s id _ H Hf ltac:(discriminate)) as Hr. simpl in Hr.
    unfold after_call. destruct o as [data|err].
    + destruct (validate_response data).
      * apply detached_on_error; [apply detached_record; exact D | exact Hr].
      * apply detached_fulfil, detached_cache, detached_record, D.
    + apply detached_on_error; [exact D | exact Hr].
Qed.

Lemma reachable_inv : forall s, reachable s -> Inv s.
Proof.
  induction 1 as [|s e s' _ IH Hs]; [exact init_inv|]. eapply step_inv; eassumption.
Qed.

Lemma in_frames_find : forall s f,
  Inv s -> In f (st_frames s) -> find_frame (frid f) (st_frames s) = Some f.
Proof.
  intros s f H Hin. pose proof (ids_nodup s H) as N. unfold ids_of in N.
  apply NoDup_app_remove_l, NoDup_app_remove_r in N. unfold frid.
  induction (st_frames s) as [|g fs IH]; [destruct Hin|]. simpl in *.
  inversion N as [|? ? Hg Hn]; subst.
  destruct Hin as [->|Hin].
  - rewrite Nat.eqb_refl. reflexivity.
  - destruct (Nat.eqb (rq_id (fr_req g)) (rq_id (fr_req f))) eqn:E.
    + apply Nat.eqb_eq in E. exfalso. apply Hg. rewrite E.
      apply (in_map (fun f => rq_id (fr_req f))). exact Hin.
    + apply IH; assumption.
Qed.

Lemma finally_done : forall s, exists l, st_done (finally s) = st_done s ++ l.
Proof. intros s. unfold finally, process. destruct (pnr_done (S (List.length (st_pending (set_busy s false)))) (set_busy s false)) as [l Hl]. exists l. exact Hl. Qed.

Lemma finally_cache : forall s, st_cache (finally s) = st_cache s.
Proof. intros s. unfold finally, process. rewrite pnr_cache. reflexivity. Qed.

Lemma finally_backoffs : forall s, st_backoffs (finally s) = st_backoffs s.
Proof. intros s. unfold finally, process. rewrite pnr_backoffs. reflexivity. Qed.

(** ** Claims settled on concrete runs *)

(** Name the final state of a run and evaluate it. *)
Ltac run_to_end e :=
  exists (match e with Some s => s | None => init end); split; [vm_compute; reflexivity|];
  vm_compute; repeat split; try discriminate; try (left; reflexivity).

(** C1 (code defect). Claim: at most 2 successful dispatch timestamps fall
    in any trailing 60 000 ms window. Three distinct requests answered at
    once succeed at 0, 0 and 30 000 ms: the third waits only 30 000 ms from
    the oldest retained timestamp, so three successes fall in the minute
    ending at 30 000 ms, against the "2 requests per minute" the constant
    [RATE_LIMIT_REQUESTS] documents. *)
Theorem C1_three_successes_within_a_minute :
  exists s, exec init run_three = Some s
    /\ st_successes s = [0; 0; 30000]
    /\ st_throttles s = [(0%nat, 0); (1%nat, 0); (2%nat, 30000)]
    /\ count_in_window (st_successes s) 30000 = 3%nat.
Proof. run_to_end (exec init run_three).
Qed.

(** C3 (code defect). Claim: a request that failed with a retryable 429 is
    serviced, on its next attempt, before every request submitted after it.
    After a cache hit the loop runs requests 2 and 3 side by side; while
    request 2 sleeps before its retry, request 3 finishes and the loop pops
    and calls request 4, submitted after request 2, before request 2 is
    reinserted and retried. *)
Theorem C3_retry_overtaken_by_later_submission :
  exists s, exec init run_retry_overtaken = Some s
    /\ st_pops s = [0; 1; 2; 3; 4; 2]%nat
    /\ st_calls s = [0; 2; 3; 4; 2]%nat
    /\ st_backoffs s = [(2%nat, 10000)].
Proof. run_to_end (exec init run_retry_overtaken).
Qed.

(** C4 (code defect). Claim: at most one PendingRequest is popped and not
    yet fulfilled or reinserted at any time. After request 0 succeeds,
    request 1 is a cache hit: its nested [processNextRequest()] pops
    request 2 and suspends on its upstream call, then the [finally] of the
    cache-hit path clears [isProcessing] and pops request 3 as well. *)
Theorem C4_two_requests_in_flight :
  exists s, exec init (run_hit_then_two (user_msg "b") (user_msg "c")) = Some s
    /\ map (fun f => (frid f, fr_kind f)) (st_frames s) = [(2%nat, KUpstream); (3%nat, KUpstream)]
    /\ st_pops s = [0; 1; 2; 3]%nat
    /\ st_calls s = [0; 2; 3]%nat
    /\ map fst (st_done s) = [0; 1]%nat.
Proof. run_to_end (exec init (run_hit_then_two (user_msg "b") (user_msg "c"))).
Qed.

(** C5 (code defect, same cause as C4). Claim: two submissions with
    identical messages and model, the first completing successfully,
    resolve to the same cached payload with one upstream call. Behind a
    cache hit, requests 2 and 3 (identical) are both sent upstream before
    either is cached, and resolve to different payloads. *)
Theorem C5_identical_requests_both_sent :
  exists s,
    exec init (run_hit_then_two (user_msg "x") (user_msg "x")
               ++ [ERespond 2 (UOk (completion "q1")); ERespond 3 (UOk (completion "q2"))])
      = Some s
    /\ st_calls s = [0; 2; 3]%nat
    /\ skipn 2 (st_done s) = [(2%nat, Resolved (completion "q1")); (3%nat, Resolved (completion "q2"))]
    /\ completion "q1" <> completion "q2".
Proof.
  run_to_end (exec init (run_hit_then_two (user_msg "x") (user_msg "x")
               ++ [ERespond 2 (UOk (completion "q1")); ERespond 3 (UOk (completion "q2"))])).
Qed.

(** Counterexample to C2: a request answered 429 on every attempt sleeps
    10 000, 20 000, 40 000 and 80 000 ms and is rejected at its fifth
    failure; no 160 000 ms sleep is ever taken. *)
Lemma C2_no_fifth_backoff :
  exists s, exec init run_all_429 = Some s
    /\ delays_of 0 (st_backoffs s) = [10000; 20000; 40000; 80000]
    /\ delays_of 0 (st_backoffs s) <> [10000; 20000; 40000; 80000; 160000]
    /\ st_done s = [(0%nat, Rejected MSG_RATE_LIMIT)]
    /\ st_pending s = [] /\ st_frames s = [].
Proof. run_to_end (exec init run_all_429).
Qed.

(** Counterexample to C6: a failure with no status, no code and an empty
    message is rejected with the fixed fallback text, not with the
    (empty) underlying message. *)
Lemma C6_empty_message_not_passed_through :
  exists s,
    exec init [ESubmit (user_msg "a") MODEL; ERespond 0 (UErr (mkError None None EmptyString))] = Some s
    /\ st_done s = [(0%nat, Rejected MSG_FALLBACK)]
    /\ MSG_FALLBACK <> EmptyString.
Proof.
  run_to_end (exec init [ESubmit (user_msg "a") MODEL; ERespond 0 (UErr (mkError None None EmptyString))]).
Qed.

(** Counterexample to C10: a body with an [error] field set to [null] and a
    valid first choice is resolved and cached. *)
Lemma C10_null_error_field_accepted :
  exists s,
    exec init [ESubmit (user_msg "a") MODEL; ERespond 0 (UOk body_error_null)] = Some s
    /\ In "error"%string (match body_error_null with JObj fs => map fst fs | _ => [] end)
    /\ st_done s = [(0%nat, Resolved body_error_null)]
    /\ cache_get (cache_key (user_msg "a") MODEL) (st_cache s) = Some body_error_null.
Proof.
  run_to_end (exec init [ESubmit (user_msg "a") MODEL; ERespond 0 (UOk body_error_null)]).
Qed.

(** ** Claims proved for every reachable state *)

Lemma on_error_done : forall s r e, exists l, st_done (on_error s r e) = st_done s ++ l.
Proof.
  intros s r e. unfold on_error. destruct (handle_error e (rq_retry r)).
  - exists []. rewrite app_nil_r. reflexivity.
  - destruct (finally_done (fulfil s (rq_id r) (Rejected msg))) as [l Hl].
    exists ((rq_id r, Rejected msg) :: l). rewrite Hl. simpl. rewrite <- app_assoc. reflexivity.
Qed.

Lemma after_call_done : forall s r o, exists l, st_done (after_call s r o) = st_done s ++ l.
Proof.
  intros s r o. unfold after_call. destruct o as [data|err].
  - destruct (validate_response data) as [msg|].
    + destruct (on_error_done (record_success s) r (plain_error msg)) as [l Hl].
      exists l. exact Hl.
    + edestruct finally_done as [l Hl]. rewrite Hl. simpl. rewrite <- app_assoc.
      eexists. reflexivity.
  - apply on_error_done.
Qed.

Lemma step_done : forall s e s', step s e = Some s' -> exists l, st_done s' = st_done s ++ l.
Proof.
  intros s e s' Hs. destruct e as [m md|dt|id|id o]; simpl in Hs.
  - inversion Hs; subst. unfold submit. destruct (Nat.leb _ _).
    + unfold process. edestruct pnr_done as [l Hl]. exists l. rewrite Hl. reflexivity.
    + exists []. rewrite app_nil_r. reflexivity.
  - destruct (dt <? 0); inversion Hs; subst. exists []. rewrite app_nil_r. reflexivity.
  - destruct (find_frame id (st_frames s)) as [[r [w| |w c]]|]; try discriminate;
      destruct (w <=? st_now s); inversion Hs; subst.
    + exists []. rewrite app_nil_r. reflexivity.
    + edestruct finally_done as [l Hl]. rewrite Hl. exists l. reflexivity.
  - destruct (find_frame id (st_frames s)) as [[r [w| |w c]]|]; try discriminate.
    inversion Hs; subst.
    destruct (after_call_done (set_frames s (remove_frame id (st_frames s))) r o) as [l Hl].
    exists l. exact Hl.
Qed.

Lemma nodup_app_disjoint : forall (l l' : list nat) a, NoDup (l ++ l') -> In a l -> ~ In a l'.
Proof.
  induction l as [|b l IH]; intros l' a N Ha; [destruct Ha|].
  simpl in N. inversion N as [|? ? Hb N']; subst.
  destruct Ha as [<-|Ha].
  - intros Hin. apply Hb, in_or_app. right. exact Hin.
  - apply IH; assumption.
Qed.

Lemma count_seq : forall n id, (id < n)%nat -> count_occ Nat.eq_dec (seq 0 n) id = 1%nat.
Proof.
  intros n id H. apply (proj1 (NoDup_count_occ' Nat.eq_dec _) (seq_NoDup n 0)).
  apply in_seq. lia.
Qed.

(** C9. Every submitted request is, at every point of every run, in exactly
    one place: waiting in [pendingRequests], held by a suspended
    [processNextRequest] call (also while it sleeps before a retry), or
    fulfilled; the log of [resolve]/[reject] calls only grows and names each
    handle at most once; and when no call is suspended, every submitted
    handle has been fulfilled exactly once. *)
Theorem C9_each_handle_fulfilled_once : forall s, reachable s ->
  (forall id, (id < st_next s)%nat -> count_occ Nat.eq_dec (ids_of s) id = 1%nat)
  /\ NoDup (map fst (st_done s))
  /\ (forall f, In f (st_frames s) -> ~ In (frid f) (map fst (st_done s)))
  /\ (forall e s', step s e = Some s' -> exists l, st_done s' = st_done s ++ l)
  /\ (st_frames s = [] ->
      forall id, (id < st_next s)%nat -> count_occ Nat.eq_dec (map fst (st_done s)) id = 1%nat).
Proof.
  intros s Hr. pose proof (reachable_inv s Hr) as H.
  pose proof (ids_nodup s H) as N.
  assert (C : forall id, (id < st_next s)%nat -> count_occ Nat.eq_dec (ids_of s) id = 1%nat).
  { intros id Hid. rewrite (proj1 (Permutation_count_occ Nat.eq_dec _ _) (inv_perm s H)).
    apply count_seq. exact Hid. }
  split; [exact C|]. split.
  { unfold ids_of in N. apply NoDup_app_remove_l, NoDup_app_remove_l in N. exact N. }
  split.
  { intros f Hf Hd. unfold ids_of in N. apply NoDup_app_remove_l in N.
    apply (nodup_app_disjoint _ _ (frid f) N); [|exact Hd].
    apply (in_map (fun f => rq_id (fr_req f))). exact Hf. }
  split; [apply step_done|].
  intros Hf id Hid. rewrite <- (C id Hid). unfold ids_of. rewrite Hf.
  assert (Hp : st_pending s = []).
  { destruct (st_pending s) eqn:E; [reflexivity|]. exfalso.
    apply (inv_live s H); [rewrite E; discriminate | exact Hf]. }
  rewrite Hp. reflexivity.
Qed.

Lemma exec_reachable : forall es s s', reachable s -> exec s es = Some s' -> reachable s'.
Proof.
  induction es as [|e es IH]; intros s s' Hr He; simpl in He.
  - inversion He; subst. exact Hr.
  - destruct (step s e) as [s1|] eqn:E; [|discriminate].
    apply (IH s1); [apply (reach_step s e s1 Hr E) | exact He].
Qed.

Lemma done_excludes : forall s id, Inv s -> In id (map fst (st_done s)) ->
  ~ In id (map rq_id (st_pending s)) /\ ~ In id (map frid (st_frames s)).
Proof.
  intros s id H Hd. pose proof (ids_nodup s H) as N. unfold ids_of in N. split.
  - intros Hp. apply (nodup_app_disjoint _ _ id N Hp). apply in_or_app. right. exact Hd.
  - intros Hf. apply NoDup_app_remove_l in N.
    apply (nodup_app_disjoint _ _ id N); [|exact Hd]. exact Hf.
Qed.

(** The step that delivers the result of the upstream call of [r]. *)
Lemma respond_step : forall s r o s',
  Inv s -> In (mkFrame r KUpstream) (st_frames s) ->
  step s (ERespond (rq_id r) o) = Some s' ->
  s' = after_call (set_frames s (remove_frame (rq_id r) (st_frames s))) r o
  /\ req_ok (st_backoffs s) r /\ ~ In (rq_id r) (map fst (st_done s)).
Proof.
  intros s r o s' H Hin Hs.
  pose proof (in_frames_find s _ H Hin) as Hf. unfold frid in Hf; simpl in Hf.
  simpl in Hs. rewrite Hf in Hs. inversion Hs; subst. split; [reflexivity|]. split.
  - exact (detached_ok s (rq_id r) _ H Hf ltac:(discriminate)).
  - intros Hd. pose proof (ids_nodup s H) as N. unfold ids_of in N.
    apply NoDup_app_remove_l in N.
    apply (nodup_app_disjoint _ _ (rq_id r) N); [|exact Hd].
    apply (in_map (fun f => rq_id (fr_req f)) _ _ Hin).
Qed.

Lemma finally_window : forall s, st_window (finally s) = st_window s.
Proof. intros s. unfold finally, process. rewrite pnr_window. reflexivity. Qed.

Lemma finally_successes : forall s, st_successes (finally s) = st_successes s.
Proof. intros s. unfold finally, process. rewrite pnr_successes. reflexivity. Qed.

Lemma on_error_reject : forall s r e m,
  handle_error e (rq_retry r) = CReject m ->
  (exists l, st_done (on_error s r e) = st_done s ++ (rq_id r, Rejected m) :: l)
  /\ st_backoffs (on_error s r e) = st_backoffs s
  /\ st_cache (on_error s r e) = st_cache s.
Proof.
  intros s r e m He. unfold on_error. rewrite He.
  destruct (finally_done (fulfil s (rq_id r) (Rejected m))) as [l Hl].
  split; [exists l; rewrite Hl; simpl; rewrite <- app_assoc; reflexivity|].
  rewrite finally_backoffs, finally_cache. split; reflexivity.
Qed.

(** C2 (corrected). Claim as amended: a request answered 429 on every
    attempt sleeps exactly 10 000, 20 000, 40 000 and 80 000 ms before its
    retries 1 to 4 ([BASE_DELAY_MS * 2^(n-1)]); the retry after the
    [k+1]-th failure is granted while [k + 1 < MAX_RETRIES]; the handle is
    rejected with "API Error: Rate limit exceeded after maximum retries" at
    the 5th failed attempt and never before. Stated for a request whose
    upstream call is pending after [k] earlier sleeps and which is answered
    429. *)
Theorem C2_backoff_schedule : forall s r e s',
  reachable s -> In (mkFrame r KUpstream) (st_frames s) -> status_is e 429 = true ->
  step s (ERespond (rq_id r) (UErr e)) = Some s' ->
  delays_of (rq_id r) (st_backoffs s)
    = firstn (List.length (delays_of (rq_id r) (st_backoffs s))) BACKOFF_TABLE
  /\ ( ((List.length (delays_of (rq_id r) (st_backoffs s)) < 4)%nat
        /\ delays_of (rq_id r) (st_backoffs s')
           = delays_of (rq_id r) (st_backoffs s)
             ++ [BASE_DELAY_MS * 2 ^ Z.of_nat (List.length (delays_of (rq_id r) (st_backoffs s)))]
        /\ delays_of (rq_id r) (st_backoffs s')
           = firstn (S (List.length (delays_of (rq_id r) (st_backoffs s)))) BACKOFF_TABLE
        /\ st_done s' = st_done s
        /\ ~ In (rq_id r) (map fst (st_done s')))
     \/ (List.length (delays_of (rq_id r) (st_backoffs s)) = 4%nat
        /\ delays_of (rq_id r) (st_backoffs s) = BACKOFF_TABLE
        /\ exists l, st_done s' = st_done s ++ (rq_id r, Rejected MSG_RATE_LIMIT) :: l) ).
Proof.
  intros s r e s' Hr Hin H429 Hs. pose proof (reachable_inv s Hr) as H.
  pose proof (reachable_inv s' (reach_step s _ s' Hr Hs)) as H'.
  destruct (respond_step s r _ s' H Hin Hs) as [-> [[Hk Hmax] Hnd]].
  split; [apply (inv_sched s H)|].
  set (k := List.length (delays_of (rq_id r) (st_backoffs s))) in *.
  unfold after_call, on_error in *. unfold handle_error in *. rewrite H429 in *.
  destruct (Nat.ltb (S (rq_retry r)) MAX_RETRIES) eqn:E.
  - apply Nat.ltb_lt in E. unfold MAX_RETRIES in E. left.
    replace (Z.of_nat (S (rq_retry r)) - 1) with (Z.of_nat k) in * by lia.
    cbn [st_backoffs st_done add_frame log_backoff set_frames] in *.
    rewrite delays_of_app_same.
    split; [lia|]. split; [reflexivity|]. split.
    + pose proof (inv_sched _ H' (rq_id r)) as Hs'.
      cbn [st_backoffs add_frame log_backoff set_frames] in Hs'.
      rewrite delays_of_app_same, length_app in Hs'.
      rewrite Hs'. f_equal. cbn [List.length]. lia.
    + split; [reflexivity|exact Hnd].
  - apply Nat.ltb_ge in E. unfold MAX_RETRIES in *. right.
    assert (k = 4%nat) by lia. split; [assumption|]. split.
    + rewrite (inv_sched s H (rq_id r)). fold k. rewrite H0. reflexivity.
    + destruct (finally_done (fulfil (set_frames s (remove_frame (rq_id r) (st_frames s)))
                               (rq_id r) (Rejected MSG_RATE_LIMIT))) as [l Hl].
      exists l. rewrite Hl. simpl. rewrite <- app_assoc. reflexivity.
Qed.

Lemma error_message_plain : forall msg, msg <> EmptyString -> error_message (plain_error msg) = msg.
Proof.
  intros msg H. unfold error_message, plain_error, status_is, code_is. simpl.
  destruct (String.eqb msg EmptyString) eqn:E; [apply String.eqb_eq in E; contradiction|].
  reflexivity.
Qed.

Lemma validate_response_nonempty : forall data msg,
  validate_response data = Some msg -> msg <> EmptyString.
Proof.
  intros data msg H. unfold validate_response in H.
  repeat match type of H with
  | context [if ?b then _ else _] => destruct b
  end; inversion H; subst; discriminate.
Qed.

(** C6 (corrected). Claim as amended: every upstream failure other than
    429 ends the request without retry: statuses 402, 401, 404 and 408 (or
    code ECONNABORTED) each reject the handle with its own fixed message,
    and any other failure rejects with the underlying error's message when
    that message is non-empty and with "Failed to make OpenRouter request"
    when it is empty; the request is never reinserted into the queue. *)
Theorem C6_non_429_failures_terminal : forall s r e s',
  reachable s -> In (mkFrame r KUpstream) (st_frames s) -> status_is e 429 = false ->
  step s (ERespond (rq_id r) (UErr e)) = Some s' ->
  (exists l, st_done s' = st_done s ++ (rq_id r, Rejected (error_message e)) :: l)
  /\ ~ In (rq_id r) (map rq_id (st_pending s'))
  /\ ~ In (rq_id r) (map frid (st_frames s'))
  /\ st_backoffs s' = st_backoffs s
  /\ (err_status e = Some 402 -> error_message e = MSG_402)
  /\ (err_status e = Some 401 -> error_message e = MSG_401)
  /\ (err_status e = Some 404 -> error_message e = MSG_404)
  /\ (err_status e = Some 408 -> error_message e = MSG_TIMEOUT)
  /\ (code_is e "ECONNABORTED" = true ->
      err_status e <> Some 402 -> err_status e <> Some 401 -> err_status e <> Some 404 ->
      error_message e = MSG_TIMEOUT)
  /\ (err_status e <> Some 402 -> err_status e <> Some 401 -> err_status e <> Some 404 ->
      err_status e <> Some 408 -> code_is e "ECONNABORTED" = false ->
      error_message e = if String.eqb (err_message e) EmptyString then MSG_FALLBACK
                        else err_message e)
  /\ NoDup [MSG_402; MSG_401; MSG_404; MSG_TIMEOUT].
Proof.
  intros s r e s' Hr Hin H429 Hs. pose proof (reachable_inv s Hr) as H.
  pose proof (reachable_inv s' (reach_step s _ s' Hr Hs)) as H'.
  destruct (respond_step s r _ s' H Hin Hs) as [Hs' _].
  assert (He : handle_error e (rq_retry r) = CReject (error_message e))
    by (unfold handle_error; rewrite H429; reflexivity).
  destruct (on_error_reject (set_frames s (remove_frame (rq_id r) (st_frames s))) r e _ He)
    as [[l Hl] [Hb _]].
  assert (Hd : exists l, st_done s' = st_done s ++ (rq_id r, Rejected (error_message e)) :: l)
    by (exists l; rewrite Hs'; exact Hl).
  assert (Hin' : In (rq_id r) (map fst (st_done s'))).
  { destruct Hd as [l' ->]. rewrite map_app. apply in_or_app. right. left. reflexivity. }
  destruct (done_excludes s' (rq_id r) H' Hin') as [Hp Hf].
  split; [exact Hd|]. split; [exact Hp|]. split; [exact Hf|]. split; [rewrite Hs'; exact Hb|].
  unfold error_message, status_is.
  repeat split; intros; repeat match goal with H : err_status e = _ |- _ => rewrite H end;
    try reflexivity.
  - match goal with H : code_is e _ = true |- _ => rewrite H end.
    destruct (err_status e) as [z|]; [|reflexivity].
    destruct (Z.eqb_spec z 402); [subst; contradiction|].
    destruct (Z.eqb_spec z 401); [subst; contradiction|].
    destruct (Z.eqb_spec z 404); [subst; contradiction|].
    rewrite orb_true_r. reflexivity.
  - destruct (err_status e) as [z|].
    + destruct (Z.eqb_spec z 402); [subst; contradiction|].
      destruct (Z.eqb_spec z 401); [subst; contradiction|].
      destruct (Z.eqb_spec z 404); [subst; contradiction|].
      destruct (Z.eqb_spec z 408); [subst; contradiction|].
      match goal with H : code_is e _ = false |- _ => rewrite H end. reflexivity.
    + match goal with H : code_is e _ = false |- _ => rewrite H end. reflexivity.
  - repeat constructor; simpl; intuition discriminate.
Qed.

(** C10 (corrected). Claim as amended: for an upstream call that returns a
    response without transport or HTTP-status error, if the body is falsy
    or not an object, or carries a truthy [error] field, or has no choices
    (falsy or of length 0), or the first choice's message content is not a
    string, the handle is rejected at once with a non-empty descriptive
    message; the request is never requeued and its retry sleeps do not
    change (the caught error has no HTTP status, so it is never treated as
    429), and the cache is left unchanged. *)
Theorem C10_invalid_body_rejected : forall s r data s',
  reachable s -> In (mkFrame r KUpstream) (st_frames s) ->
  (truthy data = false \/ typeof_object data = false
   \/ truthy (getprop data "error") = true
   \/ truthy (getprop data "choices") = false
   \/ getprop data "choices" = JArr []
   \/ typeof_string (optprop (optprop (getidx0 (getprop data "choices")) "message") "content")
      = false) ->
  step s (ERespond (rq_id r) (UOk data)) = Some s' ->
  exists msg, validate_response data = Some msg /\ msg <> EmptyString
    /\ (exists l, st_done s' = st_done s ++ (rq_id r, Rejected msg) :: l)
    /\ st_cache s' = st_cache s
    /\ ~ In (rq_id r) (map rq_id (st_pending s'))
    /\ ~ In (rq_id r) (map frid (st_frames s'))
    /\ st_backoffs s' = st_backoffs s.
Proof.
  intros s r data s' Hr Hin Hbad Hs. pose proof (reachable_inv s Hr) as H.
  pose proof (reachable_inv s' (reach_step s _ s' Hr Hs)) as H'.
  destruct (respond_step s r _ s' H Hin Hs) as [Hs' _].
  destruct (validate_response data) as [msg|] eqn:Hv.
  - pose proof (validate_response_nonempty data msg Hv) as Hne.
    assert (He : handle_error (plain_error msg) (rq_retry r) = CReject msg).
    { unfold handle_error. rewrite (error_message_plain msg Hne). reflexivity. }
    destruct (on_error_reject (record_success (set_frames s (remove_frame (rq_id r) (st_frames s))))
                r (plain_error msg) msg He) as [[l Hl] [Hb Hc]].
    assert (Hd : exists l, st_done s' = st_done s ++ (rq_id r, Rejected msg) :: l)
      by (exists l; rewrite Hs'; unfold after_call; rewrite Hv; exact Hl).
    assert (Hin' : In (rq_id r) (map fst (st_done s'))).
    { destruct Hd as [l' ->]. rewrite map_app. apply in_or_app. right. left. reflexivity. }
    destruct (done_excludes s' (rq_id r) H' Hin') as [Hp Hf].
    exists msg. split; [reflexivity|]. split; [exact Hne|]. split; [exact Hd|].
    rewrite Hs'. unfold after_call. rewrite Hv. rewrite Hs' in Hp, Hf.
    unfold after_call in Hp, Hf. rewrite Hv in Hp, Hf.
    split; [exact Hc|]. split; [exact Hp|]. split; [exact Hf|exact Hb].
  - exfalso. unfold validate_response in Hv.
    destruct (truthy data) eqn:T1; simpl in Hv; [|discriminate].
    destruct (typeof_object data) eqn:T2; simpl in Hv; [|discriminate].
    destruct (truthy (getprop data "error")) eqn:T3; [discriminate|].
    destruct (truthy (getprop data "choices")) eqn:T4; simpl in Hv; [|discriminate].
    destruct (match getprop (getprop data "choices") "length" with JNum z => (z =? 0) | _ => false end) eqn:T5;
      simpl in Hv; [discriminate|].
    destruct (truthy (optprop (optprop (getidx0 (getprop data "choices")) "message") "content"))
      eqn:T6; simpl in Hv; [|discriminate].
    destruct (typeof_string (optprop (optprop (getidx0 (getprop data "choices")) "message") "content"))
      eqn:T7; simpl in Hv; [|discriminate].
    destruct Hbad as [?|[?|[?|[?|[Hc|?]]]]]; try congruence.
    rewrite Hc in T5. simpl in T5. discriminate.
Qed.

Lemma on_error_window : forall s r e,
  st_window (on_error s r e) = st_window s /\ st_successes (on_error s r e) = st_successes s.
Proof.
  intros s r e. unfold on_error. destruct (handle_error e (rq_retry r)).
  - split; reflexivity.
  - rewrite finally_window, finally_successes. split; reflexivity.
Qed.

(** C8 (confirmed). The rate window [requestQueue] and the log of
    recorded timestamps change only when an upstream call returns a
    response ([updateQueue] right after [axios.post]); every other event,
    in particular an upstream call failing with 429, a transport error or
    any non-2xx status, leaves both unchanged. *)
Theorem C8_window_only_on_success : forall s e s',
  step s e = Some s' ->
  match e with
  | ERespond _ (UOk _) =>
      st_window s' = updateQueue (st_window s) (st_now s)
      /\ st_successes s' = st_successes s ++ [st_now s]
  | _ => st_window s' = st_window s /\ st_successes s' = st_successes s
  end.
Proof.
  intros s e s' Hs. destruct e as [m md|dt|id|id o]; simpl in Hs.
  - inversion Hs; subst. unfold submit. destruct (Nat.leb _ _); [|split; reflexivity].
    unfold process. rewrite pnr_window, pnr_successes. split; reflexivity.
  - destruct (dt <? 0); inversion Hs; subst. split; reflexivity.
  - destruct (find_frame id (st_frames s)) as [[r [w| |w c]]|]; try discriminate;
      destruct (w <=? st_now s); inversion Hs; subst.
    + split; reflexivity.
    + rewrite finally_window, finally_successes. split; reflexivity.
  - destruct (find_frame id (st_frames s)) as [[r [w| |w c]]|]; try discriminate.
    inversion Hs; subst. unfold after_call. destruct o as [data|err].
    + destruct (validate_response data) as [msg|].
      * destruct (on_error_window (record_success (set_frames s (remove_frame id (st_frames s))))
                    r (plain_error msg)) as [-> ->].
        split; reflexivity.
      * rewrite finally_window, finally_successes. split; reflexivity.
    + exact (on_error_window _ r err).
Qed.

Lemma exec_cons : forall s e es,
  exec s (e :: es) = match step s e with Some s' => exec s' es | None => None end.
Proof. reflexivity. Qed.

(** Symbolic evaluation of a run, one event at a time: the comparisons on
    symbolic times are split and the impossible branches closed. *)
Ltac zsplit H :=
  match type of H with
  | context [?a <? ?b] => destruct (Z.ltb_spec a b); try (exfalso; lia)
  | context [?a <=? ?b] => destruct (Z.leb_spec a b); try (exfalso; lia)
  end.
Ltac zred H := cbv -[Z.ltb Z.leb Z.add Z.sub Z.max MIN_DELAY_MS WINDOW_MS exec] in H.
Ltac zstep H := rewrite exec_cons in H; zred H; do 4 (try (zsplit H; zred H)); try discriminate H.

Lemma min_delay_value : MIN_DELAY_MS = 30000.
Proof. reflexivity. Qed.

(** C7 (confirmed). [calculateDelay] is 0 while fewer than 2 timestamps
    are recorded and [max(0, 30000 - (now - oldest))] otherwise, with
    [30000 = ceil(60000 / 2)]. For three distinct requests submitted back to
    back on an empty cache, with the first answered (and its timestamp
    recorded) at [t1] and the second [dt] ms later, requests 1 and 2 are
    dispatched with no throttling delay and request 3 waits
    [max(0, 30000 - dt)] ms: its call is issued at [t1 + 30000] when
    [dt < 30000] and at once otherwise. *)
Theorem C7_delay_formula_and_three_requests :
  (forall q now, (List.length q < 2)%nat -> calculateDelay q now = 0)
  /\ (forall t0 rest now, (1 <= List.length rest)%nat ->
      calculateDelay (t0 :: rest) now = Z.max 0 (MIN_DELAY_MS - (now - t0)))
  /\ MIN_DELAY_MS = 30000
  /\ (forall t1 dt s, exec init (run_spaced t1 dt) = Some s ->
      st_throttles s = [(0%nat, 0); (1%nat, 0); (2%nat, Z.max 0 (30000 - dt))]
      /\ st_successes s = [t1; t1 + dt]
      /\ (dt < 30000 ->
          map (fun f => (frid f, fr_kind f)) (st_frames s) = [(2%nat, KThrottle (t1 + 30000))]
          /\ st_calls s = [0; 1]%nat)
      /\ (30000 <= dt ->
          map (fun f => (frid f, fr_kind f)) (st_frames s) = [(2%nat, KUpstream)]
          /\ st_calls s = [0; 1; 2]%nat)).
Proof.
  split; [|split; [|split]].
  - intros q now Hq. unfold calculateDelay, MAX_QUEUE_SIZE, RATE_LIMIT_REQUESTS.
    apply Nat.ltb_lt in Hq. rewrite Hq. reflexivity.
  - intros t0 rest now Hr. unfold calculateDelay, MAX_QUEUE_SIZE, RATE_LIMIT_REQUESTS.
    replace (Nat.ltb (List.length (t0 :: rest)) 2) with false
      by (symmetry; apply Nat.ltb_ge; simpl; lia).
    reflexivity.
  - exact min_delay_value.
  - intros t1 dt s H. unfold run_spaced in H.
    pose proof min_delay_value as HM. assert (HW : WINDOW_MS = 60000) by reflexivity.
    do 7 zstep H.
    all: cbn [exec] in H;
      apply (f_equal (fun o => match o with Some x => x | None => init end)) in H;
      cbv beta iota in H; subst s;
      cbv beta iota delta [st_throttles st_successes st_frames st_calls map frid fr_kind fr_req rq_id].
    all: repeat split; intros; try (exfalso; lia);
      repeat match goal with
      | |- (_ :: _) = (_ :: _) => f_equal
      | |- (_, _) = (_, _) => f_equal
      | |- KThrottle _ = KThrottle _ => f_equal
      end; try reflexivity; lia.
Qed.

(** ** Witnesses: the theorems above applied to concrete runs *)

Lemma C9_each_handle_fulfilled_once_witness :
  reachable (state_after (run_hit_then_two (user_msg "b") (user_msg "c")))
  /\ NoDup (map fst (st_done (state_after (run_hit_then_two (user_msg "b") (user_msg "c"))))).
Proof.
  assert (R : reachable (state_after (run_hit_then_two (user_msg "b") (user_msg "c")))).
  { apply (exec_reachable (run_hit_then_two (user_msg "b") (user_msg "c")) init);
      [constructor | vm_compute; reflexivity]. }
  split; [exact R|].
  exact (proj1 (proj2 (C9_each_handle_fulfilled_once _ R))).
Defined.

Lemma C2_backoff_schedule_witness :
  step (state_after (firstn 4 run_all_429)) (ERespond 0 (UErr (http_error 429)))
    = Some (state_after (firstn 5 run_all_429))
  /\ delays_of 0 (st_backoffs (state_after (firstn 5 run_all_429))) = [10000; 20000].
Proof.
  assert (Hs : step (state_after (firstn 4 run_all_429)) (ERespond 0 (UErr (http_error 429)))
               = Some (state_after (firstn 5 run_all_429))) by (vm_compute; reflexivity).
  split; [exact Hs|].
  destruct (C2_backoff_schedule (state_after (firstn 4 run_all_429))
              (mkReq 0 (user_msg "a") MODEL 1) (http_error 429)
              (state_after (firstn 5 run_all_429))
              ltac:(apply (exec_reachable (firstn 4 run_all_429) init);
                    [constructor | vm_compute; reflexivity])
              ltac:(vm_compute; auto) eq_refl Hs)
    as [_ [[_ [_ [H _]]] | [Hk _]]].
  - cbn [rq_id] in H. rewrite H. vm_compute. reflexivity.
  - vm_compute in Hk. discriminate.
Defined.

Lemma C6_non_429_failures_terminal_witness :
  exists l, st_done (state_after [ESubmit (user_msg "a") MODEL; ERespond 0 (UErr (http_error 402))])
    = st_done (state_after [ESubmit (user_msg "a") MODEL]) ++ (0%nat, Rejected MSG_402) :: l.
Proof.
  destruct (C6_non_429_failures_terminal (state_after [ESubmit (user_msg "a") MODEL])
              (mkReq 0 (user_msg "a") MODEL 0) (http_error 402)
              (state_after [ESubmit (user_msg "a") MODEL; ERespond 0 (UErr (http_error 402))])
              ltac:(apply (exec_reachable [ESubmit (user_msg "a") MODEL] init);
                    [constructor | vm_compute; reflexivity])
              ltac:(vm_compute; auto) eq_refl ltac:(vm_compute; reflexivity))
    as [Hd [_ [_ [_ [H402 _]]]]].
  rewrite <- (H402 eq_refl). exact Hd.
Defined.

Lemma C10_invalid_body_rejected_witness :
  exists msg,
    validate_response (JObj [("error"%string, JObj [("message"%string, JStr "Rate limit exceeded")])])
      = Some msg
    /\ st_cache (state_after [ESubmit (user_msg "a") MODEL;
                              ERespond 0 (UOk (JObj [("error"%string,
                                 JObj [("message"%string, JStr "Rate limit exceeded")])]))]) = [].
Proof.
  destruct (C10_invalid_body_rejected (state_after [ESubmit (user_msg "a") MODEL])
              (mkReq 0 (user_msg "a") MODEL 0)
              (JObj [("error"%string, JObj [("message"%string, JStr "Rate limit exceeded")])])
              (state_after [ESubmit (user_msg "a") MODEL;
                            ERespond 0 (UOk (JObj [("error"%string,
                               JObj [("message"%string, JStr "Rate limit exceeded")])]))])
              ltac:(apply (exec_reachable [ESubmit (user_msg "a") MODEL] init);
                    [constructor | vm_compute; reflexivity])
              ltac:(vm_compute; auto)
              ltac:(right; right; left; reflexivity)
              ltac:(vm_compute; reflexivity))
    as [msg [Hv [_ [_ [Hc _]]]]].
  exists msg. split; [exact Hv|]. rewrite Hc. vm_compute. reflexivity.
Defined.

Lemma C8_window_only_on_success_witness :
  st_window (state_after [ESubmit (user_msg "a") MODEL; ERespond 0 (UErr (http_error 429))])
    = st_window (state_after [ESubmit (user_msg "a") MODEL]).
Proof.
  exact (proj1 (C8_window_only_on_success (state_after [ESubmit (user_msg "a") MODEL])
                  (ERespond 0 (UErr (http_error 429)))
                  (state_after [ESubmit (user_msg "a") MODEL; ERespond 0 (UErr (http_error 429))])
                  ltac:(vm_compute; reflexivity))).
Defined.

Lemma C7_delay_formula_and_three_requests_witness :
  calculateDelay [5000; 12000] 12000 = 23000
  /\ st_throttles (state_after (run_spaced 5000 7000)) = [(0%nat, 0); (1%nat, 0); (2%nat, 23000)].
Proof.
  destruct C7_delay_formula_and_three_requests as [_ [H2 [_ H4]]].
  split.
  - rewrite H2 by (simpl; lia). reflexivity.
  - destruct (H4 5000 7000 (state_after (run_spaced 5000 7000)) ltac:(vm_compute; reflexivity))
      as [Ht _].
    rewrite Ht. reflexivity.
Defined.

(** ** The second invariant: rate window, cache and fulfilments *)

Lemma trim_old_suffix : forall now q, exists p, q = p ++ trim_old now q.
Proof.
  intros now; induction q as [|t q IH]; simpl; [exists []; reflexivity|].
  destruct (WINDOW_MS <=? now - t).
  - destruct IH as [p Hp]. exists (t :: p). simpl. rewrite <- Hp. reflexivity.
  - exists []. reflexivity.
Qed.

Lemma trim_old_keeps_now : forall now q,
  exists p, trim_old now (q ++ [now]) = p ++ [now].
Proof.
  intros now; induction q as [|t q IH]; simpl.
  - assert (E : (WINDOW_MS <=? now - now) = false)
      by (apply Z.leb_gt; unfold WINDOW_MS; lia).
    rewrite E. exists []. reflexivity.
  - destruct (WINDOW_MS <=? now - t); [exact IH|]. exists (t :: q). reflexivity.
Qed.

Lemma updateQueue_suffix : forall q now,
  exists p, q ++ [now] = p ++ updateQueue q now.
Proof.
  intros q now. unfold updateQueue.
  destruct (trim_old_suffix now (q ++ [now])) as [p Hp].
  destruct (Nat.ltb _ _).
  - destruct (trim_old now (q ++ [now])) as [|t l] eqn:E; simpl.
    + exists p. exact Hp.
    + exists (p ++ [t]). rewrite <- app_assoc. exact Hp.
  - exists p. exact Hp.
Qed.

Lemma updateQueue_last : forall q now, exists p, updateQueue q now = p ++ [now].
Proof.
  intros q now. unfold updateQueue.
  destruct (trim_old_keeps_now now q) as [p Hp]. rewrite Hp.
  destruct p as [|t p]; simpl; [exists []; reflexivity|].
  destruct (Nat.ltb _ _); [exists p | exists (t :: p)]; reflexivity.
Qed.

Lemma updateQueue_length : forall q now,
  (List.length q <= MAX_QUEUE_SIZE)%nat -> (List.length (updateQueue q now) <= MAX_QUEUE_SIZE)%nat.
Proof.
  intros q now Hq. unfold updateQueue.
  destruct (trim_old_suffix now (q ++ [now])) as [p Hp].
  assert (L : (List.length (trim_old now (q ++ [now])) <= S (List.length q))%nat).
  { apply (f_equal (@List.length Z)) in Hp. rewrite length_app in Hp. simpl in Hp.
    rewrite length_app in Hp. simpl in Hp. lia. }
  destruct (Nat.ltb MAX_QUEUE_SIZE _) eqn:E.
  - apply Nat.ltb_lt in E. destruct (trim_old now (q ++ [now])); simpl in *; lia.
  - apply Nat.ltb_ge in E. exact E.
Qed.

Lemma updateQueue_bound : forall q now,
  Forall (fun t => t <= now) q -> Forall (fun t => t <= now) (updateQueue q now).
Proof.
  intros q now Hq. destruct (updateQueue_suffix q now) as [p Hp].
  assert (A : Forall (fun t => t <= now) (q ++ [now]))
    by (apply Forall_app; split; [exact Hq | constructor; [lia | constructor]]).
  rewrite Hp in A. apply Forall_app in A. exact (proj2 A).
Qed.

Lemma calculateDelay_bound : forall q now,
  Forall (fun t => t <= now) q -> 0 <= calculateDelay q now <= MIN_DELAY_MS.
Proof.
  intros q now Hq. pose proof min_delay_value as M. unfold calculateDelay.
  destruct (Nat.ltb _ _) eqn:E; [lia|].
  destruct q as [|t q]; [discriminate E|]. cbn [hd]. inversion Hq; subst. cbv beta in *. lia.
Qed.

Lemma cache_get_forall : forall (Q : jsv -> Prop) k c v,
  Forall (fun kv => Q (snd kv)) c -> cache_get k c = Some v -> Q v.
Proof.
  intros Q k; induction c as [|[k' v'] c IH]; intros v Hc H; simpl in H; [discriminate|].
  inversion Hc; subst. destruct (String.eqb k k'); [inversion H; subst; assumption|].
  apply IH; assumption.
Qed.

Lemma cache_set_forall : forall (Q : jsv -> Prop) k v c,
  Forall (fun kv => Q (snd kv)) c -> Q v -> Forall (fun kv => Q (snd kv)) (cache_set k v c).
Proof.
  intros Q k v; induction c as [|[k' v'] c IH]; intros Hc Hv; simpl.
  - constructor; [exact Hv | constructor].
  - inversion Hc; subst. destruct (String.eqb k k'); constructor; auto.
Qed.

Lemma cache_set_keys : forall k v c x,
  In x (map fst (cache_set k v c)) -> x = k \/ In x (map fst c).
Proof.
  intros k v; induction c as [|[k' v'] c IH]; intros x H; simpl in *.
  - destruct H as [H|[]]. left; symmetry; exact H.
  - destruct (String.eqb k k'); simpl in H; destruct H as [H|H]; auto.
    destruct (IH x H); auto.
Qed.

Lemma cache_set_nodup : forall k v c,
  NoDup (map fst c) -> NoDup (map fst (cache_set k v c)).
Proof.
  intros k v; induction c as [|[k' v'] c IH]; intros Hc; simpl in *.
  - constructor; [intros []|constructor].
  - inversion Hc as [|? ? Hn Hd]; subst.
    destruct (String.eqb k k') eqn:E; simpl; constructor; auto.
    intros Hin. destruct (cache_set_keys k v c k' Hin) as [Hk|Hk]; [|contradiction].
    subst. rewrite String.eqb_refl in E. discriminate.
Qed.

Lemma handle_error_reject_nonempty : forall e c m,
  handle_error e c = CReject m -> m <> EmptyString.
Proof.
  intros e c m H. unfold handle_error in H.
  assert (L : forall x, In x [MSG_RATE_LIMIT; MSG_402; MSG_401; MSG_404; MSG_TIMEOUT; MSG_FALLBACK]
              -> x <> EmptyString)
    by (intros x Hx; simpl in Hx; repeat destruct Hx as [<-|Hx]; try contradiction;
        unfold MSG_RATE_LIMIT, MSG_402, MSG_401, MSG_404, MSG_TIMEOUT, MSG_FALLBACK; discriminate).
  destruct (status_is e 429); [destruct (Nat.ltb _ _); inversion H; subst; apply L; simpl; tauto|].
  inversion H; subst. unfold error_message.
  destruct (status_is e 402); [apply L; simpl; tauto|].
  destruct (status_is e 401); [apply L; simpl; tauto|].
  destruct (status_is e 404); [apply L; simpl; tauto|].
  destruct (status_is e 408 || code_is e "ECONNABORTED"); [apply L; simpl; tauto|].
  destruct (String.eqb (err_message e) EmptyString) eqn:E; [apply L; simpl; tauto|].
  intros Hn. rewrite Hn in E. discriminate.
Qed.

Lemma inv2_same : forall s s', Inv2 s ->
  st_window s' = st_window s -> st_now s' = st_now s -> st_cache s' = st_cache s ->
  st_done s' = st_done s -> st_throttles s' = st_throttles s -> Inv2 s'.
Proof.
  intros s s' [A B C D E F] Hw Hn Hc Hd Ht.
  constructor; rewrite ?Hw, ?Hn, ?Hc, ?Hd, ?Ht; assumption.
Qed.

Ltac by_inv2_same H := apply (inv2_same _ _ H); reflexivity.

Lemma inv2_fulfil : forall s i o, Inv2 s -> done_ok (i, o) -> Inv2 (fulfil s i o).
Proof.
  intros s i o [A B C D E F] Ho. constructor; simpl; try assumption.
  apply Forall_app. split; [exact E | constructor; [exact Ho | constructor]].
Qed.

Lemma pnr_inv2 : forall fuel s, Inv2 s -> Inv2 (pnr fuel s).
Proof.
  induction fuel as [|f IH]; intros s H; simpl; [exact H|].
  destruct (st_pending s) as [|r rest] eqn:Hp; [exact H|].
  destruct (st_busy s); [exact H|].
  assert (H1 : Inv2 (pop_head s r rest)) by by_inv2_same H.
  destruct (cache_get _ _) as [v|] eqn:Hc.
  - apply IH. assert (H2 : Inv2 (pnr f (set_busy (fulfil (pop_head s r rest) (rq_id r) (Resolved v)) false))).
    { apply IH. assert (H3 : Inv2 (fulfil (pop_head s r rest) (rq_id r) (Resolved v))).
      { apply inv2_fulfil; [exact H1|]. unfold done_ok; simpl.
        exact (cache_get_forall (fun v => validate_response v = None) _ _ _ (inv2_cache _ H1) Hc). }
      by_inv2_same H3. }
    by_inv2_same H2.
  - assert (H2 : Inv2 (log_throttle (pop_head s r rest) (rq_id r)
                        (calculateDelay (st_window (pop_head s r rest)) (st_now (pop_head s r rest))))).
    { destruct H1 as [A B C D E F]. constructor; simpl in *; try assumption.
      apply Forall_app. split; [exact F|]. constructor; [|constructor].
      simpl. apply calculateDelay_bound. exact B. }
    destruct (0 <? _); [by_inv2_same H2 | by_inv2_same H2].
Qed.

Lemma finally_inv2 : forall s, Inv2 s -> Inv2 (finally s).
Proof.
  intros s H. unfold finally, process. apply pnr_inv2. by_inv2_same H.
Qed.

Lemma on_error_inv2 : forall s r e, Inv2 s -> Inv2 (on_error s r e).
Proof.
  intros s r e H. unfold on_error.
  destruct (handle_error e (rq_retry r)) as [d c|m] eqn:E.
  - by_inv2_same H.
  - apply finally_inv2, inv2_fulfil; [exact H|]. unfold done_ok; simpl.
    exact (handle_error_reject_nonempty _ _ _ E).
Qed.

Lemma record_success_inv2 : forall s, Inv2 s -> Inv2 (record_success s).
Proof.
  intros s [A B C D E F]. constructor; simpl; try assumption.
  - apply updateQueue_length. exact A.
  - apply updateQueue_bound. exact B.
Qed.

Lemma after_call_inv2 : forall s r o, Inv2 s -> Inv2 (after_call s r o).
Proof.
  intros s r o H. unfold after_call. destruct o as [data|e]; [|apply on_error_inv2; exact H].
  pose proof (record_success_inv2 s H) as H1.
  destruct (validate_response data) eqn:V; [apply on_error_inv2; exact H1|].
  apply finally_inv2, inv2_fulfil; [|exact V].
  destruct H1 as [A B C D E F]. constructor; simpl; try assumption.
  - apply (cache_set_forall (fun v => validate_response v = None)); assumption.
  - apply cache_set_nodup; assumption.
Qed.

Lemma step_inv2 : forall s e s', Inv2 s -> step s e = Some s' -> Inv2 s'.
Proof.
  intros s e s' H Hs. destruct e as [m md|dt|id|id o]; simpl in Hs.
  - inversion Hs; subst. unfold submit.
    match goal with |- Inv2 (if _ then process ?s1 else _) =>
      assert (H1 : Inv2 s1) by by_inv2_same H end.
    destruct (Nat.leb _ _); [apply pnr_inv2|]; exact H1.
  - destruct (dt <? 0) eqn:E; inversion Hs; subst. apply Z.ltb_ge in E.
    destruct H as [A B C D G F]. constructor; simpl; try assumption.
    eapply Forall_impl; [|exact B]. intros t Ht. simpl in Ht. lia.
  - destruct (find_frame id (st_frames s)) as [[r k]|]; [|discriminate].
    destruct k as [w| |w c]; [| discriminate |]; destruct (w <=? st_now s); inversion Hs; subst.
    + by_inv2_same H.
    + apply finally_inv2. by_inv2_same H.
  - destruct (find_frame id (st_frames s)) as [[r k]|]; [|discriminate].
    destruct k; try discriminate. inversion Hs; subst.
    apply after_call_inv2. by_inv2_same H.
Qed.

Lemma reachable_inv2 : forall s, reachable s -> Inv2 s.
Proof.
  induction 1 as [|s e s' _ IH Hs].
  - constructor; simpl; try constructor. unfold MAX_QUEUE_SIZE, RATE_LIMIT_REQUESTS. lia.
  - eapply step_inv2; eassumption.
Qed.

(** ** Reading back what [JSON.stringify] wrote *)

Lemma str_app_assoc : forall a b c : string,
  String.append (String.append a b) c = String.append a (String.append b c).
Proof. induction a as [|x a IH]; intros b c; simpl; [reflexivity|]. rewrite IH. reflexivity. Qed.

Lemma str_app_inv_head : forall p a b : string,
  String.append p a = String.append p b -> a = b.
Proof. induction p as [|x p IH]; intros a b H; simpl in H; [exact H|]. injection H as H. auto. Qed.

Lemma string_cons_inj : forall c (a b : string), String c a = String c b -> a = b.
Proof. intros c a b H. injection H as H. exact H. Qed.

Lemma json_escape_char_unescape : forall c rest,
  json_unescape (String.append (json_escape_char c) rest) = prepend c (json_unescape rest).
Proof.
  intros [b0 b1 b2 b3 b4 b5 b6 b7] rest.
  destruct b0, b1, b2, b3, b4, b5, b6, b7; reflexivity.
Qed.

Lemma json_escape_unescape : forall t rest,
  json_unescape (String.append (json_escape t) (String dq rest)) = Some (t, rest).
Proof.
  induction t as [|c t IH]; intros rest; [reflexivity|].
  cbn [json_escape]. rewrite str_app_assoc, json_escape_char_unescape, IH. reflexivity.
Qed.

Lemma parse_json_string_app : forall t rest,
  parse_json_string (String.append (json_string t) rest) = Some (t, rest).
Proof.
  intros t rest. unfold json_string. cbn [String.append].
  rewrite str_app_assoc. cbn [String.append]. apply json_escape_unescape.
Qed.

Lemma json_string_inj : forall t1 t2 r1 r2,
  String.append (json_string t1) r1 = String.append (json_string t2) r2 -> t1 = t2 /\ r1 = r2.
Proof.
  intros t1 t2 r1 r2 H. apply (f_equal parse_json_string) in H.
  rewrite !parse_json_string_app in H. injection H as H1 H2. auto.
Qed.

Lemma concat_empty_cons : forall (x : string) xs,
  xs <> [] -> String.concat EmptyString (x :: xs) = String.append x (String.concat EmptyString xs).
Proof. intros x [|y ys] H; [congruence | reflexivity]. Qed.

Lemma concat_comma_cons : forall (x y : string) ys r,
  String.append (String.concat "," (x :: y :: ys)) r
  = String.append x (String "," (String.append (String.concat "," (y :: ys)) r)).
Proof. intros x y ys r. change (String.concat "," (x :: y :: ys)) with (String.append x (String.append "," (String.concat "," (y :: ys)))). rewrite !str_app_assoc. reflexivity. Qed.

Lemma json_message_app : forall m r,
  String.append (json_message m) r
  = String "{" (String.append (json_string "role") (String ":" (String.append (json_string (role m))
      (String "," (String.append (json_string "content") (String ":"
        (String.append (json_string (content m)) (String "}" r)))))))).
Proof.
  intros m r. unfold json_message.
  rewrite !concat_empty_cons by discriminate. cbn [String.concat].
  rewrite !str_app_assoc. reflexivity.
Qed.

Lemma json_message_inj : forall m1 m2 r1 r2,
  String.append (json_message m1) r1 = String.append (json_message m2) r2 -> m1 = m2 /\ r1 = r2.
Proof.
  intros [ro1 co1] [ro2 co2] r1 r2 H. rewrite !json_message_app in H. cbn [role content] in H.
  apply string_cons_inj in H. apply json_string_inj in H as [_ H]. apply string_cons_inj in H.
  apply json_string_inj in H as [E1 H]. apply string_cons_inj in H.
  apply json_string_inj in H as [_ H]. apply string_cons_inj in H.
  apply json_string_inj in H as [E2 H]. apply string_cons_inj in H. subst. auto.
Qed.

Lemma json_messages_inj : forall ms1 ms2 r1 r2,
  String.append (String.concat "," (map json_message ms1)) (String "]" r1)
  = String.append (String.concat "," (map json_message ms2)) (String "]" r2) ->
  ms1 = ms2 /\ r1 = r2.
Proof.
  induction ms1 as [|m1 ms1 IH]; intros [|m2 ms2] r1 r2 H.
  - apply string_cons_inj in H. auto.
  - exfalso. destruct ms2; cbn [map] in H;
      [change (String.concat "," [json_message m2]) with (json_message m2) in H
      | rewrite concat_comma_cons in H];
      rewrite json_message_app in H; discriminate H.
  - exfalso. destruct ms1; cbn [map] in H;
      [change (String.concat "," [json_message m1]) with (json_message m1) in H
      | rewrite concat_comma_cons in H];
      rewrite json_message_app in H; discriminate H.
  - destruct ms1 as [|m1' ms1']; destruct ms2 as [|m2' ms2']; cbn [map] in H;
      rewrite ?concat_comma_cons in H;
      change (String.concat "," [json_message m1]) with (json_message m1) in H;
      change (String.concat "," [json_message m2]) with (json_message m2) in H;
      apply json_message_inj in H as [Em H]; subst.
    + apply string_cons_inj in H. auto.
    + discriminate H.
    + discriminate H.
    + apply string_cons_inj in H. change (json_message m1' :: map json_message ms1')
        with (map json_message (m1' :: ms1')) in H.
      change (json_message m2' :: map json_message ms2')
        with (map json_message (m2' :: ms2')) in H.
      apply IH in H as [E H]. rewrite E. auto.
Qed.

(** ** The third invariant: upstream calls per request *)

Lemma upstream_of_app : forall i fs gs,
  upstream_of i (fs ++ gs) = (upstream_of i fs + upstream_of i gs)%nat.
Proof. intros i fs gs. unfold upstream_of. rewrite filter_app, length_app. reflexivity. Qed.

Lemma upstream_of_perm : forall i fs gs, Permutation fs gs -> upstream_of i fs = upstream_of i gs.
Proof.
  intros i fs gs H. unfold upstream_of.
  induction H; simpl; repeat match goal with |- context [if ?b then _ else _] => destruct b end;
    simpl; lia.
Qed.

Lemma upstream_of_notin : forall i fs, ~ In i (map frid fs) -> upstream_of i fs = 0%nat.
Proof.
  intros i; induction fs as [|f fs IH]; intros H; [reflexivity|].
  unfold upstream_of in *; simpl in *.
  destruct (Nat.eqb (frid f) i) eqn:E; simpl.
  - apply Nat.eqb_eq in E. exfalso. apply H. left. exact E.
  - apply IH. intros Hi. apply H. right. exact Hi.
Qed.

Lemma upstream_of_single : forall i f,
  upstream_of i [f] = match fr_kind f with
                      | KUpstream => count_occ Nat.eq_dec [frid f] i
                      | _ => 0%nat end.
Proof.
  intros i f. unfold upstream_of; simpl.
  destruct (Nat.eq_dec (frid f) i) as [E|E].
  - rewrite <- E, Nat.eqb_refl. destruct (fr_kind f); reflexivity.
  - apply Nat.eqb_neq in E. rewrite E. destruct (fr_kind f); reflexivity.
Qed.

Lemma calls_of_issue : forall i s r,
  calls_of i (issue s r) = (calls_of i s + count_occ Nat.eq_dec [rq_id r] i)%nat.
Proof. intros i s r. unfold calls_of; simpl. rewrite count_occ_app. reflexivity. Qed.

Lemma inv3_same : forall s s' fl, Inv3 s fl ->
  st_calls s' = st_calls s -> st_backoffs s' = st_backoffs s -> st_frames s' = st_frames s ->
  st_done s' = st_done s -> st_next s' = st_next s -> Inv3 s' fl.
Proof.
  intros s s' fl [A B C] Hc Hb Hf Hd Hn. unfold calls_of in *.
  constructor; unfold calls_of; rewrite ?Hc, ?Hb, ?Hf, ?Hd, ?Hn; assumption.
Qed.

Ltac by_inv3_same H := apply (inv3_same _ _ _ H); reflexivity.

Lemma inv3_fulfil : forall s fl i o, Inv3 s fl -> (forall j, In j fl -> j = i) ->
  Inv3 (fulfil s i o) [].
Proof.
  intros s fl i o [A B C] Hfl. constructor; try exact A; try exact C.
  intros id Hn. unfold calls_of in *. simpl in *. rewrite map_app in Hn. simpl in Hn.
  assert (Hid : id <> i) by (intros ->; apply Hn, in_or_app; right; left; reflexivity).
  assert (Hold : ~ In id (map fst (st_done s))) by (intros Hi; apply Hn, in_or_app; left; exact Hi).
  rewrite (B id Hold). simpl.
  assert (Hz : count_occ Nat.eq_dec fl id = 0%nat).
  { apply count_occ_not_In. intros Hi. apply Hid, Hfl, Hi. }
  rewrite Hz. reflexivity.
Qed.

Lemma inv3_add_frame : forall s fl f, Inv3 s fl ->
  (match fr_kind f with KUpstream => False | _ => True end) -> Inv3 (add_frame s f) fl.
Proof.
  intros s fl f [A B C] Hk. constructor; try exact A; try exact C.
  intros id Hn. unfold calls_of in *. simpl. rewrite upstream_of_app, upstream_of_single.
  rewrite (B id Hn). destruct (fr_kind f); [lia | contradiction | lia].
Qed.

Lemma inv3_issue : forall s r, Inv3 s [] -> ~ In (rq_id r) (ids_of s) ->
  (rq_id r < st_next s)%nat -> Inv3 (issue s r) [].
Proof.
  intros s r [A B C] Hni Hlt. unfold ids_of in Hni.
  assert (Hf : ~ In (rq_id r) (map frid (st_frames s)))
    by (intros Hi; apply Hni, in_or_app; right; apply in_or_app; left; exact Hi).
  assert (Hd : ~ In (rq_id r) (map fst (st_done s)))
    by (intros Hi; apply Hni, in_or_app; right; apply in_or_app; right; exact Hi).
  pose proof (B (rq_id r) Hd) as Br. rewrite (upstream_of_notin _ _ Hf) in Br. simpl in Br.
  constructor.
  - intros id. rewrite calls_of_issue. simpl. pose proof (A id).
    destruct (Nat.eq_dec (rq_id r) id) as [<-|E]; lia.
  - intros id Hn. rewrite calls_of_issue. simpl st_frames. rewrite upstream_of_app, upstream_of_single.
    simpl. change (frid (mkFrame r KUpstream)) with (rq_id r).
    destruct (Nat.eq_dec (rq_id r) id) as [<-|E]; simpl.
    + rewrite (upstream_of_notin _ _ Hf). lia.
    + assert (Hn' : ~ In id (map fst (st_done s))) by exact Hn.
      rewrite (B id Hn'). simpl. lia.
  - intros id Hid. rewrite calls_of_issue. simpl.
    destruct (Nat.eq_dec (rq_id r) id) as [<-|E]; [simpl in Hid; lia|]. rewrite (C id Hid). reflexivity.
Qed.

Lemma inv3_remove : forall s fl id f, Inv3 s fl -> find_frame id (st_frames s) = Some f ->
  Inv3 (set_frames s (remove_frame id (st_frames s)))
       (match fr_kind f with KUpstream => frid f :: fl | _ => fl end).
Proof.
  intros s fl id f [A B C] Hf. destruct (find_frame_spec _ _ _ Hf) as [_ [_ Hp]].
  constructor; try exact A; try exact C.
  intros j Hn. unfold calls_of in *. simpl. rewrite (B j Hn), (upstream_of_perm j _ _ Hp).
  change (f :: remove_frame id (st_frames s)) with ([f] ++ remove_frame id (st_frames s)).
  rewrite upstream_of_app, upstream_of_single.
  destruct (fr_kind f); simpl; [lia| |lia].
  destruct (Nat.eq_dec (frid f) j); lia.
Qed.

Lemma inv3_backoff : forall s r d w c, Inv3 s [rq_id r] -> ~ In (rq_id r) (ids_of s) ->
  Inv3 (add_frame (log_backoff s (rq_id r) d) (mkFrame r (KBackoff w c))) [].
Proof.
  intros s r d w c [A B C] Hni. unfold ids_of in Hni.
  assert (Hf : ~ In (rq_id r) (map frid (st_frames s)))
    by (intros Hi; apply Hni, in_or_app; right; apply in_or_app; left; exact Hi).
  assert (Hd : ~ In (rq_id r) (map fst (st_done s)))
    by (intros Hi; apply Hni, in_or_app; right; apply in_or_app; right; exact Hi).
  pose proof (B (rq_id r) Hd) as Br. rewrite (upstream_of_notin _ _ Hf) in Br.
  simpl in Br. destruct (Nat.eq_dec (rq_id r) (rq_id r)) as [_|E]; [|congruence].
  constructor; unfold calls_of in *; simpl.
  - intros id. destruct (Nat.eq_dec id (rq_id r)) as [->|E].
    + rewrite delays_of_app_same, length_app. simpl. lia.
    + rewrite delays_of_app_other by exact E. apply A.
  - intros id Hn. rewrite upstream_of_app, upstream_of_single. simpl.
    destruct (Nat.eq_dec id (rq_id r)) as [->|E].
    + rewrite delays_of_app_same, length_app, (upstream_of_notin _ _ Hf). simpl. lia.
    + rewrite delays_of_app_other by exact E. rewrite (B id Hn). simpl.
      destruct (Nat.eq_dec (rq_id r) id); [congruence|]. lia.
  - exact C.
Qed.

Lemma fulfil_perm : forall s r o L,
  Permutation (rq_id r :: ids_of s) L -> Permutation (ids_of (fulfil s (rq_id r) o)) L.
Proof.
  intros s r o L H. rewrite <- H. unfold ids_of; simpl.
  rewrite map_app, !app_assoc. apply Permutation_sym, Permutation_cons_append.
Qed.

Lemma add_frame_perm : forall s r k L,
  Permutation (rq_id r :: ids_of s) L -> Permutation (ids_of (add_frame s (mkFrame r k))) L.
Proof.
  intros s r k L H. rewrite <- H. unfold ids_of; simpl.
  rewrite map_app, <- app_assoc. simpl. rewrite !app_assoc.
  apply Permutation_sym, Permutation_middle.
Qed.

Lemma pnr_inv3 : forall fuel s, Permutation (ids_of s) (seq 0 (st_next s)) ->
  Inv3 s [] -> Inv3 (pnr fuel s) [].
Proof.
  induction fuel as [|f IH]; intros s Hp H; simpl; [exact H|].
  destruct (st_pending s) as [|r rest] eqn:Hpe; [exact H|].
  destruct (st_busy s); [exact H|].
  set (s1 := pop_head s r rest).
  assert (Hd : Permutation (rq_id r :: ids_of s1) (seq 0 (st_next s1))).
  { change (st_next s1) with (st_next s). rewrite <- Hp. unfold ids_of, s1. simpl.
    rewrite Hpe. reflexivity. }
  assert (H1 : Inv3 s1 []) by by_inv3_same H.
  pose proof (Permutation_NoDup (Permutation_sym Hd) (seq_NoDup _ _)) as N.
  assert (Hni : ~ In (rq_id r) (ids_of s1)) by (inversion N; assumption).
  assert (Hlt : (rq_id r < st_next s1)%nat)
    by (pose proof (Permutation_in (rq_id r) Hd (or_introl eq_refl)) as Hin;
        apply in_seq in Hin; lia).
  destruct (cache_get _ _) as [v|].
  - set (s2 := set_busy (fulfil s1 (rq_id r) (Resolved v)) false).
    assert (P2 : Permutation (ids_of s2) (seq 0 (st_next s2))) by (apply fulfil_perm; exact Hd).
    assert (H2 : Inv3 s2 []).
    { pose proof (inv3_fulfil s1 [] (rq_id r) (Resolved v) H1 ltac:(intros j [])) as H3.
      by_inv3_same H3. }
    apply IH; [|pose proof (IH s2 P2 H2) as H4; by_inv3_same H4].
    simpl. rewrite pnr_next. apply pnr_perm. exact P2.
  - set (s2 := log_throttle s1 (rq_id r) (calculateDelay (st_window s1) (st_now s1))).
    assert (H2 : Inv3 s2 []) by by_inv3_same H1.
    destruct (0 <? _).
    + apply inv3_add_frame; [exact H2 | exact I].
    + apply inv3_issue; [exact H2 | exact Hni | exact Hlt].
Qed.

Lemma finally_inv3 : forall s, Permutation (ids_of s) (seq 0 (st_next s)) ->
  Inv3 s [] -> Inv3 (finally s) [].
Proof.
  intros s Hp H. unfold finally, process. apply pnr_inv3; [exact Hp|]. by_inv3_same H.
Qed.

Lemma on_error_inv3 : forall s r e, Detached s r -> Inv3 s [rq_id r] -> Inv3 (on_error s r e) [].
Proof.
  intros s r e D H. unfold on_error.
  destruct (handle_error e (rq_retry r)) as [d c|m].
  - apply inv3_backoff; [exact H | exact (detached_not_in s r D)].
  - apply finally_inv3.
    + apply fulfil_perm. exact (det_perm s r D).
    + apply (inv3_fulfil s [rq_id r]); [exact H|]. intros j [->|[]]. reflexivity.
Qed.

Lemma after_call_inv3 : forall s r o, Detached s r -> Inv3 s [rq_id r] ->
  Inv3 (after_call s r o) [].
Proof.
  intros s r o D H. unfold after_call. destruct o as [data|e]; [|apply on_error_inv3; assumption].
  assert (H1 : Inv3 (record_success s) [rq_id r]) by by_inv3_same H.
  destruct (validate_response data).
  - apply on_error_inv3; [apply detached_record; exact D | exact H1].
  - apply finally_inv3.
    + apply fulfil_perm. exact (det_perm _ r (detached_cache _ r _ (detached_record s r D))).
    + assert (H2 : Inv3 (set_cache (record_success s)
                     (cache_set (cache_key (rq_messages r) (rq_model r)) data
                        (st_cache (record_success s)))) [rq_id r]) by by_inv3_same H1.
      apply (inv3_fulfil _ [rq_id r]); [exact H2|]. intros j [->|[]]. reflexivity.
Qed.

Lemma step_inv3 : forall s e s', Inv s -> Inv3 s [] -> step s e = Some s' -> Inv3 s' [].
Proof.
  intros s e s' Hi H Hs. destruct e as [m md|dt|id|id o]; simpl in Hs.
  - inversion Hs; subst. unfold submit.
    pose proof (inv_perm s Hi) as Hp. unfold ids_of in Hp.
    match goal with |- Inv3 (if _ then process ?s1 else _) _ =>
      assert (H1 : Inv3 s1 []);
      [|assert (P1 : Permutation (ids_of s1) (seq 0 (st_next s1)))] end.
    + destruct H as [A B C]. constructor; unfold calls_of in *; simpl; try assumption.
      intros id Hid. apply C. lia.
    + unfold ids_of. cbn [st_pending st_frames st_done st_next].
      rewrite seq_S, map_app, <- app_assoc. simpl.
      rewrite <- Permutation_middle. rewrite Hp. apply Permutation_cons_append.
    + destruct (Nat.leb _ _); [|exact H1]. unfold process. apply pnr_inv3; assumption.
  - destruct (dt <? 0); inversion Hs; subst. by_inv3_same H.
  - destruct (find_frame id (st_frames s)) as [[r k]|] eqn:Hf; [|discriminate].
    destruct k as [w| |w c]; [| discriminate |]; destruct (w <=? st_now s); inversion Hs; subst.
    + pose proof (inv3_remove s [] id _ H Hf) as H1. simpl in H1.
      pose proof (detach s id _ Hi Hf ltac:(discriminate)) as D. simpl in D.
      apply inv3_issue; [exact H1 | exact (detached_not_in _ _ D)|].
      apply (detached_below _ r _ D). left. reflexivity.
    + pose proof (inv3_remove s [] id _ H Hf) as H1. simpl in H1.
      apply finally_inv3; [|by_inv3_same H1].
      simpl. rewrite <- (inv_perm s Hi), (remove_perm s id _ Hf). unfold ids_of; simpl.
      unfold frid; simpl. reflexivity.
  - destruct (find_frame id (st_frames s)) as [[r k]|] eqn:Hf; [|discriminate].
    destruct k; try discriminate. inversion Hs; subst.
    pose proof (inv3_remove s [] id _ H Hf) as H1. simpl in H1.
    pose proof (detach s id _ Hi Hf ltac:(discriminate)) as D. simpl in D.
    apply after_call_inv3; [exact D | exact H1].
Qed.

Lemma reachable_inv3 : forall s, reachable s -> Inv3 s [].
Proof.
  induction 1 as [|s e s' Hr IH Hs].
  - constructor; intros; unfold calls_of; simpl; lia.
  - exact (step_inv3 s e s' (reachable_inv s Hr) IH Hs).
Qed.

Lemma delays_bounded : forall s id, Inv s ->
  (List.length (delays_of id (st_backoffs s)) <= List.length BACKOFF_TABLE)%nat.
Proof.
  intros s id H. pose proof (f_equal (@List.length Z) (inv_sched s H id)) as E.
  rewrite length_firstn in E. lia.
Qed.

(** ** Properties of the module beyond the spec *)

Lemma validate_response_content : forall v,
  validate_response v = None ->
  exists text, first_content v = JStr text /\ text <> EmptyString.
Proof.
  intros v H. unfold validate_response in H.
  destruct (negb (truthy v) || negb (typeof_object v)) eqn:E1; [discriminate|].
  destruct (truthy (getprop v "error")); [discriminate|].
  destruct (negb (truthy (getprop v "choices")) || _) eqn:E2; [discriminate|].
  destruct (negb (truthy (optprop (optprop (getidx0 (getprop v "choices")) "message") "content"))
            || _) eqn:E3; [discriminate|].
  assert (Hv : optprop v "choices" = getprop v "choices")
    by (destruct v; simpl in E1; try discriminate; reflexivity).
  assert (Hc : optidx0 (getprop v "choices") = getidx0 (getprop v "choices"))
    by (destruct (getprop v "choices"); simpl in E2; try discriminate; reflexivity).
  unfold first_content. rewrite Hv, Hc.
  destruct (optprop (optprop (getidx0 (getprop v "choices")) "message") "content") as [| | | |t| |];
    simpl in E3; rewrite ?orb_true_r in E3; try discriminate.
  exists t. split; [reflexivity|]. intros Ht. subst t. discriminate E3.
Qed.

(** [updateQueue] keeps a suffix of the old window followed by the current
    time: it only drops entries from the front, and the entry it adds is
    never dropped. Starting from at most [MAX_QUEUE_SIZE] entries it leaves
    at most [MAX_QUEUE_SIZE]. *)
Theorem updateQueue_suffix_bounded : forall q now,
  (List.length q <= MAX_QUEUE_SIZE)%nat ->
  (exists p, q ++ [now] = p ++ updateQueue q now) /\
  (exists p, updateQueue q now = p ++ [now]) /\
  (List.length (updateQueue q now) <= MAX_QUEUE_SIZE)%nat.
Proof.
  intros q now Hq. split; [apply updateQueue_suffix|]. split; [apply updateQueue_last|].
  apply updateQueue_length. exact Hq.
Qed.

(** [calculateDelay] waits only when the window is full, and never longer
    than [MIN_DELAY_MS] when no entry of the window lies in the future. *)
Theorem calculateDelay_range : forall q now,
  Forall (fun t => t <= now) q ->
  0 <= calculateDelay q now <= MIN_DELAY_MS /\
  ((List.length q < MAX_QUEUE_SIZE)%nat -> calculateDelay q now = 0).
Proof.
  intros q now Hq. split; [apply calculateDelay_bound; exact Hq|].
  intros Hl. unfold calculateDelay. apply Nat.ltb_lt in Hl. rewrite Hl. reflexivity.
Qed.

(** In every reachable state the rate window holds at most
    [MAX_QUEUE_SIZE] timestamps, none in the future, and every throttle
    delay computed so far lies between 0 and [MIN_DELAY_MS]. *)
Theorem reachable_window_and_throttles : forall s, reachable s ->
  (List.length (st_window s) <= MAX_QUEUE_SIZE)%nat /\
  Forall (fun t => t <= st_now s) (st_window s) /\
  Forall (fun p => 0 <= snd p <= MIN_DELAY_MS) (st_throttles s).
Proof.
  intros s H. destruct (reachable_inv2 s H) as [A B _ _ _ F]. auto.
Qed.

(** In every reachable state the response cache holds only bodies that
    passed the response checks, under pairwise distinct keys: a cache hit
    hands out only such a body. *)
Theorem reachable_cache_valid : forall s, reachable s ->
  Forall (fun kv => validate_response (snd kv) = None) (st_cache s) /\
  NoDup (map fst (st_cache s)) /\
  (forall k v, cache_get k (st_cache s) = Some v -> validate_response v = None).
Proof.
  intros s H. destruct (reachable_inv2 s H) as [_ _ C D _ _].
  split; [exact C|]. split; [exact D|].
  intros k v Hk. exact (cache_get_forall (fun v => validate_response v = None) _ _ _ C Hk).
Qed.

(** Every value a request is resolved with, fresh or from the cache, passed
    the response checks; so its [choices[0].message.content] is a non-empty
    string and the content check of [generateBusinessIdea] accepts it. *)
Theorem resolved_values_have_content : forall s id v, reachable s ->
  In (id, Resolved v) (st_done s) ->
  validate_response v = None /\
  exists text, idea_attempt (Resolved v) = inl text /\ text <> EmptyString.
Proof.
  intros s id v H Hin. pose proof (inv2_done s (reachable_inv2 s H)) as D.
  rewrite Forall_forall in D. specialize (D _ Hin). unfold done_ok in D; simpl in D.
  split; [exact D|].
  destruct (validate_response_content v D) as [text [Ht Hn]].
  exists text. split; [|exact Hn]. unfold idea_attempt. rewrite Ht. simpl.
  destruct (String.eqb text EmptyString) eqn:E; [apply String.eqb_eq in E; contradiction|].
  reflexivity.
Qed.

(** Every rejection carries a non-empty message, so
    [makeOpenRouterRequestWithDebug] rethrows exactly ["[OpenRouter] "]
    followed by it. *)
Theorem rejections_have_message : forall s id m, reachable s ->
  In (id, Rejected m) (st_done s) ->
  m <> EmptyString /\ debug_error_message m = String.append "[OpenRouter] " m.
Proof.
  intros s id m H Hin. pose proof (inv2_done s (reachable_inv2 s H)) as D.
  rewrite Forall_forall in D. specialize (D _ Hin). unfold done_ok in D; simpl in D.
  split; [exact D|]. unfold debug_error_message.
  destruct (String.eqb m EmptyString) eqn:E; [apply String.eqb_eq in E; contradiction|].
  reflexivity.
Qed.

(** No request is stranded: whenever requests wait or the processing flag
    is set, some call of [processNextRequest] is suspended on a timer or on
    [axios.post], and it runs the [finally] block when it ends. *)
Theorem reachable_no_stall : forall s, reachable s ->
  (st_pending s <> [] -> st_frames s <> []) /\ (st_busy s = true -> st_frames s <> []).
Proof.
  intros s H. pose proof (reachable_inv s H) as I. split; [exact (inv_live s I) | exact (inv_busy s I)].
Qed.

(** [JSON.stringify({ messages, model })] is injective: two requests share
    a cache entry only when their messages and their model are equal. *)
Theorem cache_key_injective : forall ms1 md1 ms2 md2,
  cache_key ms1 md1 = cache_key ms2 md2 -> ms1 = ms2 /\ md1 = md2.
Proof.
  intros ms1 md1 ms2 md2 H. unfold cache_key in H.
  rewrite !concat_empty_cons in H by discriminate. cbn [String.concat String.append] in H.
  apply string_cons_inj in H. apply json_string_inj in H as [_ H].
  apply string_cons_inj, string_cons_inj in H.
  apply json_messages_inj in H as [Em H]. apply string_cons_inj in H.
  apply json_string_inj in H as [_ H]. apply string_cons_inj in H.
  apply json_string_inj in H as [Ed _]. auto.
Qed.

(** The retry loop of [generateBusinessIdea] calls [makeOpenRouterRequest]
    at most three times, looks at no later outcome, and never reaches the
    final [throw lastError]. *)
Theorem idea_loop_bounded : forall patch rs,
  (snd (generateBusinessIdea_loop patch rs) <= 3)%nat /\
  (snd (generateBusinessIdea_loop patch rs) <= List.length rs)%nat /\
  generateBusinessIdea_loop patch rs = generateBusinessIdea_loop patch (firstn 3 rs) /\
  (forall l, fst (generateBusinessIdea_loop patch rs) <> IdeaRethrowLast l).
Proof.
  intros patch rs. unfold generateBusinessIdea_loop.
  destruct rs as [|o1 [|o2 [|o3 rest]]]; simpl;
    repeat (destruct (idea_attempt _); simpl); repeat split; try lia; discriminate.
Qed.

(** The first attempt whose response has a non-empty string content ends
    the loop with the patched content, whatever failed before it. *)
Theorem idea_loop_first_success : forall patch fails o rest text,
  (List.length fails < 3)%nat ->
  Forall (fun f => exists msg, idea_attempt f = inr msg) fails ->
  idea_attempt o = inl text ->
  generateBusinessIdea_loop patch (fails ++ o :: rest) = (IdeaReturn (patch text), S (List.length fails)).
Proof.
  intros patch fails o rest text Hl Hf Ho. unfold generateBusinessIdea_loop.
  destruct fails as [|f1 [|f2 [|f3 fails]]]; simpl in Hl; try lia.
  - simpl. rewrite Ho. reflexivity.
  - inversion Hf as [|? ? [m1 H1] _]; subst. simpl. rewrite H1. simpl. rewrite Ho. reflexivity.
  - inversion Hf as [|? ? [m1 H1] Hf2]; subst. inversion Hf2 as [|? ? [m2 H2] _]; subst.
    simpl. rewrite H1. simpl. rewrite H2. simpl. rewrite Ho. reflexivity.
Qed.

(** Three failed attempts end the loop with the error of line 239, which
    carries the message of the third failure. *)
Theorem idea_loop_three_failures : forall patch o1 o2 o3 rest m1 m2 m3,
  idea_attempt o1 = inr m1 -> idea_attempt o2 = inr m2 -> idea_attempt o3 = inr m3 ->
  generateBusinessIdea_loop patch (o1 :: o2 :: o3 :: rest)
  = (IdeaThrow (String.append IDEA_FAILURE_PREFIX m3), 3%nat).
Proof.
  intros patch o1 o2 o3 rest m1 m2 m3 H1 H2 H3. unfold generateBusinessIdea_loop. simpl.
  rewrite H1. simpl. rewrite H2. simpl. rewrite H3. reflexivity.
Qed.

(** Every upstream call of a request after its first one follows a retry
    sleep of that request, so no request reaches [axios.post] more than
    [MAX_RETRIES] times. *)
Theorem upstream_calls_bounded : forall s id, reachable s ->
  (calls_of id s <= S (List.length (delays_of id (st_backoffs s))))%nat /\
  (calls_of id s <= MAX_RETRIES)%nat.
Proof.
  intros s id H. pose proof (inv3_le _ _ (reachable_inv3 s H) id) as A.
  pose proof (delays_bounded s id (reachable_inv s H)) as B.
  unfold MAX_RETRIES; simpl in B. split; lia.
Qed.

(** ** Instances of the properties *)

Lemma updateQueue_suffix_bounded_witness :
  (List.length [1000; 2000]%Z <= MAX_QUEUE_SIZE)%nat /\
  (List.length (updateQueue [1000; 2000]%Z 3000%Z) <= MAX_QUEUE_SIZE)%nat.
Proof.
  assert (Hq : (List.length [1000; 2000]%Z <= MAX_QUEUE_SIZE)%nat) by (vm_compute; lia).
  split; [exact Hq|]. exact (proj2 (proj2 (updateQueue_suffix_bounded [1000; 2000]%Z 3000%Z Hq))).
Defined.

Lemma calculateDelay_range_witness :
  Forall (fun t => t <= 12000) [5000; 12000] /\
  0 <= calculateDelay [5000; 12000] 12000 <= MIN_DELAY_MS.
Proof.
  assert (Hq : Forall (fun t => t <= 12000) [5000; 12000])
    by (repeat constructor; cbv beta; lia).
  split; [exact Hq|]. exact (proj1 (calculateDelay_range [5000; 12000] 12000 Hq)).
Defined.

Lemma reachable_window_and_throttles_witness :
  reachable (state_after run_three) /\
  (List.length (st_window (state_after run_three)) <= MAX_QUEUE_SIZE)%nat.
Proof.
  assert (R : reachable (state_after run_three))
    by (apply (exec_reachable run_three init); [constructor | vm_compute; reflexivity]).
  split; [exact R|]. exact (proj1 (reachable_window_and_throttles _ R)).
Defined.

Lemma reachable_cache_valid_witness :
  reachable (state_after run_three) /\ NoDup (map fst (st_cache (state_after run_three))).
Proof.
  assert (R : reachable (state_after run_three))
    by (apply (exec_reachable run_three init); [constructor | vm_compute; reflexivity]).
  split; [exact R|]. exact (proj1 (proj2 (reachable_cache_valid _ R))).
Defined.

Lemma resolved_values_have_content_witness :
  reachable (state_after run_three) /\
  In (0%nat, Resolved (completion "x")) (st_done (state_after run_three)) /\
  exists text, idea_attempt (Resolved (completion "x")) = inl text /\ text <> EmptyString.
Proof.
  assert (R : reachable (state_after run_three))
    by (apply (exec_reachable run_three init); [constructor | vm_compute; reflexivity]).
  assert (Hin : In (0%nat, Resolved (completion "x")) (st_done (state_after run_three)))
    by (vm_compute; left; reflexivity).
  split; [exact R|]. split; [exact Hin|].
  exact (proj2 (resolved_values_have_content _ _ _ R Hin)).
Defined.

Lemma rejections_have_message_witness :
  reachable (state_after run_all_429) /\
  In (0%nat, Rejected MSG_RATE_LIMIT) (st_done (state_after run_all_429)) /\
  debug_error_message MSG_RATE_LIMIT = String.append "[OpenRouter] " MSG_RATE_LIMIT.
Proof.
  assert (R : reachable (state_after run_all_429))
    by (apply (exec_reachable run_all_429 init); [constructor | vm_compute; reflexivity]).
  assert (Hin : In (0%nat, Rejected MSG_RATE_LIMIT) (st_done (state_after run_all_429)))
    by (vm_compute; left; reflexivity).
  split; [exact R|]. split; [exact Hin|].
  exact (proj2 (rejections_have_message _ _ _ R Hin)).
Defined.

Lemma reachable_no_stall_witness :
  reachable (state_after (firstn 3 run_three)) /\
  st_pending (state_after (firstn 3 run_three)) <> [] /\
  st_frames (state_after (firstn 3 run_three)) <> [].
Proof.
  assert (R : reachable (state_after (firstn 3 run_three)))
    by (apply (exec_reachable (firstn 3 run_three) init); [constructor | vm_compute; reflexivity]).
  assert (Hp : st_pending (state_after (firstn 3 run_three)) <> []) by (vm_compute; discriminate).
  split; [exact R|]. split; [exact Hp|].
  exact (proj1 (reachable_no_stall _ R) Hp).
Defined.

Lemma cache_key_injective_witness :
  cache_key (user_msg "a") MODEL = cache_key (user_msg "a") MODEL /\
  user_msg "a" = user_msg "a" /\ MODEL = MODEL.
Proof.
  split; [reflexivity|].
  exact (cache_key_injective (user_msg "a") MODEL (user_msg "a") MODEL eq_refl).
Defined.

Lemma idea_loop_first_success_witness :
  idea_attempt (Rejected "boom") = inr "boom"%string /\
  generateBusinessIdea_loop (fun t => t) [Rejected "boom"; Resolved (completion "x")]
  = (IdeaReturn "x", 2%nat).
Proof.
  split; [reflexivity|].
  exact (idea_loop_first_success (fun t => t) [Rejected "boom"] (Resolved (completion "x")) [] "x"
           ltac:(simpl; lia)
           ltac:(constructor; [exists "boom"%string; reflexivity | constructor])
           ltac:(vm_compute; reflexivity)).
Defined.

Lemma idea_loop_three_failures_witness :
  idea_attempt (Resolved JNull) = inr "Invalid response format from AI"%string /\
  generateBusinessIdea_loop (fun t => t) [Rejected "a"; Rejected "b"; Resolved JNull]
  = (IdeaThrow (String.append IDEA_FAILURE_PREFIX "Invalid response format from AI"), 3%nat).
Proof.
  split; [reflexivity|].
  exact (idea_loop_three_failures (fun t => t) (Rejected "a") (Rejected "b") (Resolved JNull) []
           "a" "b" "Invalid response format from AI" eq_refl eq_refl eq_refl).
Defined.

Lemma upstream_calls_bounded_witness :
  reachable (state_after run_all_429) /\
  calls_of 0 (state_after run_all_429) = 5%nat /\
  (calls_of 0 (state_after run_all_429) <= MAX_RETRIES)%nat.
Proof.
  assert (R : reachable (state_after run_all_429))
    by (apply (exec_reachable run_all_429 init); [constructor | vm_compute; reflexivity]).
  split; [exact R|]. split; [vm_compute; reflexivity|].
  exact (proj2 (upstream_calls_bounded _ 0 R)).
Defined.
